(** * pvl: the PVL encoder and the validation driver

    A shallow embedding of [pvl/encoder.py] (the classes [PVLEncoder],
    [IsisCubeLabelEncoder] and [PDSLabelEncoder]) and of the driver
    functions [pvl_flavor] and [main] of [pvl/pvl_validate.py], with the
    functions [report], [report_many] and [build_line] that print its
    results, followed by the properties of the specification that concern
    them and by further properties of the code.

    Python objects are modelled by the inductive type [pyvalue]; a stream is
    the sequence of bytes written to it so far; an encoder instance is its
    class together with its instance attributes; an exception leaves the
    stream and the instance as they were when it was raised. *)

From Stdlib Require Import List ZArith NArith Lia Bool String Ascii.
From Stdlib Require Import Strings.Byte DecimalString.
From Stdlib Require DecimalPos DecimalZ.
From Stdlib Require Import Permutation.
Import ListNotations.

(** ** Host data: bytes, text and exceptions *)

Abbreviation bytes := (list byte).

(** A bytes literal [b'...']. *)
Definition b (s : string) : bytes := list_byte_of_string s.

(** A Python 3 [str] is a sequence of Unicode code points. *)
Abbreviation pystr := (list N).

(** A [str] literal whose characters are all below U+0100. *)
Definition u (s : string) : pystr := List.map N_of_ascii (list_ascii_of_string s).

(** [len(s)] counts code points. *)
Definition len (s : pystr) : nat := List.length s.

(** The exceptions that cross the modelled code, with the message where
    the code builds one.  [UnicodeEncodeError] is a subclass of
    [ValueError] in Python; [LexerError] and [ParseError] are the decoder's
    exception classes; [OtherError] stands for any exception class of a
    collaborator that is none of the above nor a subclass of one. *)
Inductive exn : Type :=
| TypeError (msg : pystr)
| ValueError
| UnicodeEncodeError
| AttributeError (name : pystr)
| LexerError
| ParseError
| OtherError (name : pystr).

(** The outcome of a call: a returned value or a raised exception. *)
Inductive result (A : Type) : Type :=
| Ok (a : A)
| Raise (e : exn).

Arguments Ok {A} a.
Arguments Raise {A} e.

Definition rbind {A B} (r : result A) (k : A -> result B) : result B :=
  match r with
  | Ok a => k a
  | Raise e => Raise e
  end.

Declare Scope result_scope.
Delimit Scope result_scope with result.
Notation "x <- r ;; k" := (rbind r (fun x => k))
  (at level 61, r at next level, right associativity) : result_scope.

(** *** [str.encode('utf-8')] *)

Definition byte_of_N (n : N) : byte :=
  match Byte.of_N (n mod 256) with
  | Some x => x
  | None => x00
  end.

(** The UTF-8 form of one code point; lone surrogates (and numbers that are
    no code point) are refused, as Python's strict error handler does. *)
Definition utf8_point (c : N) : result bytes :=
  (if c <? 128 then Ok [byte_of_N c]
   else if c <? 2048 then
     Ok [byte_of_N (192 + c / 64); byte_of_N (128 + c mod 64)]
   else if c <? 65536 then
     if (55296 <=? c) && (c <=? 57343) then Raise UnicodeEncodeError
     else Ok [byte_of_N (224 + c / 4096);
              byte_of_N (128 + (c / 64) mod 64);
              byte_of_N (128 + c mod 64)]
   else if c <? 1114112 then
     Ok [byte_of_N (240 + c / 262144);
         byte_of_N (128 + (c / 4096) mod 64);
         byte_of_N (128 + (c / 64) mod 64);
         byte_of_N (128 + c mod 64)]
   else Raise UnicodeEncodeError)%N.

Fixpoint utf8 (s : pystr) : result bytes :=
  match s with
  | [] => Ok []
  | c :: rest =>
      (x <- utf8_point c ;;
       xs <- utf8 rest ;;
       Ok (x ++ xs))%result
  end.

(** [str(n)] for an [int]: its decimal digits, with a sign when negative. *)
Definition str_int (z : Z) : pystr := u (NilZero.string_of_int (Z.to_int z)).

(** [bytes.ljust(width)]: padded on the right with spaces up to [width];
    longer input is returned as it is. *)
Definition ljust (x : bytes) (width : nat) : bytes :=
  x ++ repeat " "%byte (width - List.length x).

(** [sep.join(parts)] on bytes. *)
Fixpoint join (sep : bytes) (parts : list bytes) : bytes :=
  match parts with
  | [] => []
  | [x] => x
  | x :: rest => x ++ sep ++ join sep rest
  end.

(** [max(xs)] over a sequence of lengths: [ValueError] when it is empty. *)
Definition max_of (xs : list nat) : result nat :=
  match xs with
  | [] => Raise ValueError
  | x :: rest => Ok (fold_left Nat.max rest x)
  end.

(** A list comprehension whose body may raise: elements are evaluated in
    order and the first exception ends the evaluation. *)
Fixpoint collect {A B} (f : A -> result B) (xs : list A) : result (list B) :=
  match xs with
  | [] => Ok []
  | x :: rest =>
      (y <- f x ;;
       ys <- collect f rest ;;
       Ok (y :: ys))%result
  end.

(** Sequencing the outcomes of a comprehension that were computed apart. *)
Fixpoint all_ok {A} (rs : list (result A)) : result (list A) :=
  match rs with
  | [] => Ok []
  | r :: rest =>
      (y <- r ;;
       ys <- all_ok rest ;;
       Ok (y :: ys))%result
  end.

(** ** Python values

    The objects an encoder can meet.  [VDict] is a [dict] that is no
    [PVLGroup] (a plain [dict], a [PVLObject], a [PVLModule]): an ordered
    sequence of key/value pairs in which a key may occur more than once.
    [VFloat] is a [float], given by the text [str()] yields for it;
    [VSet] lists the members of a [set], the order of iteration being the
    host's; [VOther] is an object of any other class, given by the text
    [repr()] yields for it. *)

#[local] Set Warnings "-register-all".

Inductive pyvalue : Type :=
| VStr (s : pystr)
| VInt (z : Z)
| VFloat (text : pystr)
| VBool (x : bool)
| VNone
| VList (elements : list pyvalue)
| VSet (members : list pyvalue)
| VUnits (value : pyvalue) (units : pystr)
| VDict (items : list (pystr * pyvalue))
| VGroup (items : list (pystr * pyvalue))
| VOther (repr_text : pystr).

(** What [six.iteritems] yields for a mapping. *)
Abbreviation block := (list (list N * pyvalue)).

(** [isinstance(value, (int, float))]: [bool] is a subclass of [int], so
    the test holds of [True] and [False] too. *)
Definition isinstance_int_float (value : pyvalue) : bool :=
  match value with
  | VInt _ | VFloat _ | VBool _ => true
  | _ => false
  end.

(** [value is None]. *)
Definition is_None (value : pyvalue) : bool :=
  match value with
  | VNone => true
  | _ => false
  end.

(** [isinstance(value, bool)]. *)
Definition isinstance_bool (value : pyvalue) : bool :=
  match value with
  | VBool _ => true
  | _ => false
  end.

(** [isinstance(value, dict)]: Modelled from the spec: [PVLGroup], of the
    module [_collections], is a mapping tagged as a group, hence a [dict]
    as well. *)
Definition isinstance_dict (value : pyvalue) : bool :=
  match value with
  | VDict _ | VGroup _ => true
  | _ => false
  end.

(** [str(value)], which the encoder applies to objects of the numeric
    classes only; [str(True)] is ['True']. *)
Definition str (value : pyvalue) : pystr :=
  match value with
  | VInt z => str_int z
  | VFloat text => text
  | VBool true => u "True"
  | VBool false => u "False"
  | _ => []
  end.

(** The truth value of a [bool]. *)
Definition truth (value : pyvalue) : bool :=
  match value with
  | VBool x => x
  | _ => false
  end.

(** ** Encoder classes and instances *)

Inductive encoder_class : Type :=
| PVLEncoder
| IsisCubeLabelEncoder
| PDSLabelEncoder.

(** Class attributes; the subclasses override the five structural ones. *)
Definition group (c : encoder_class) : bytes :=
  match c with
  | PVLEncoder => b "BEGIN_GROUP"
  | IsisCubeLabelEncoder => b "Group"
  | PDSLabelEncoder => b "GROUP"
  end.

Definition end_group (c : encoder_class) : bytes :=
  match c with
  | PVLEncoder => b "END_GROUP"
  | IsisCubeLabelEncoder => b "End_Group"
  | PDSLabelEncoder => b "END"
  end.

Definition object (c : encoder_class) : bytes :=
  match c with
  | PVLEncoder => b "BEGIN_OBJECT"
  | IsisCubeLabelEncoder => b "Object"
  | PDSLabelEncoder => b "OBJECT"
  end.

Definition end_object (c : encoder_class) : bytes :=
  match c with
  | PVLEncoder => b "END_OBJECT"
  | IsisCubeLabelEncoder => b "End_Object"
  | PDSLabelEncoder => b "END"
  end.

Definition end_statement (c : encoder_class) : bytes :=
  match c with
  | PVLEncoder => b "END"
  | IsisCubeLabelEncoder => b "End"
  | PDSLabelEncoder => b "END"
  end.

Definition null : bytes := b "NULL".
Definition true_ : bytes := b "TRUE".
Definition false_ : bytes := b "FALSE".
Definition assignment : bytes := b " = ".
Definition indentation : bytes := b "  ".
Definition newline : bytes := [x0a].

(** An instance: its class and its one instance attribute, which is unset
    until [PDSLabelEncoder.encode] assigns it. *)
Record encoder : Type := Encoder {
  cls : encoder_class;
  assignment_col : option nat
}.

Definition set_col (self : encoder) (col : nat) : encoder :=
  {| cls := cls self; assignment_col := Some col |}.

(** ** Methods that write

    A method runs on the instance and the stream and either returns or
    raises; in both cases it hands back the instance and the stream as it
    left them. *)

Abbreviation world := (encoder * list byte)%type.

Definition M (A : Type) : Type := world -> result A * world.

Definition ret {A} (a : A) : M A := fun w => (Ok a, w).

Definition bind {A B} (m : M A) (k : A -> M B) : M B :=
  fun w =>
    match m w with
    | (Ok a, w') => k a w'
    | (Raise e, w') => (Raise e, w')
    end.

Definition lift {A} (r : result A) : M A := fun w => (r, w).

(** [stream.write(data)]. *)
Definition write (data : bytes) : M unit :=
  fun w => (Ok tt, (fst w, snd w ++ data)).

Definition get_self : M encoder := fun w => (Ok (fst w), w).

Definition put_self (self : encoder) : M unit := fun w => (Ok tt, (self, snd w)).

Declare Scope enc_scope.
Delimit Scope enc_scope with enc.
Notation "x <- m ;; k" := (bind m (fun x => k))
  (at level 61, m at next level, right associativity) : enc_scope.
Notation "m ;; k" := (bind m (fun _ => k))
  (at level 61, right associativity) : enc_scope.

(** [level * self.indentation]. *)
Definition indentation_of (level : nat) : bytes :=
  List.concat (repeat indentation level).

(** ** Collaborators *)

(** The quoting collaborator (module [_strings]): a predicate and an
    escaper, which may refuse a text. *)
Class Quoting : Type := {
  needs_quotes : pystr -> bool;
  quote_string : pystr -> result bytes
}.

(** The host: [repr()] of the objects of the classes listed in [pyvalue],
    and the order in which a [set] yields its members. *)
Class Host : Type := {
  repr_host : pyvalue -> pystr;
  set_iter : forall A : Type, list A -> list A
}.

(** ** The encoder ([encoder.py]) *)

Section Encoder.

Context {quoting : Quoting} {host : Host}.

Definition repr (value : pyvalue) : pystr :=
  match value with
  | VOther repr_text => repr_text
  | _ => repr_host value
  end.

(** *** Values to text *)

Definition default {A} (value : pyvalue) : result A :=
  Raise (TypeError (repr value ++ u " is not serializable")).

Definition encode_units (value : pystr) : result bytes :=
  (x <- utf8 value ;;
   Ok (b "<" ++ x ++ b ">"))%result.

Definition encode_null (value : pyvalue) : result bytes := Ok null.

Definition encode_number (value : pyvalue) : result bytes := utf8 (str value).

Definition encode_string (value : pystr) : result bytes :=
  if needs_quotes value then quote_string value else utf8 value.

Definition encode_bool (value : pyvalue) : result bytes :=
  if truth value then Ok true_ else Ok false_.

(** [encode_simple_value], with the body of [encode_value] written out
    where [encode_sequence] applies it to the elements. *)
Fixpoint encode_simple_value (value : pyvalue) : result bytes :=
  let encode_value' (v : pyvalue) : result bytes :=
    match v with
    | VUnits inner unit_text =>
        (units <- encode_units unit_text ;;
         text <- encode_simple_value inner ;;
         Ok (text ++ b " " ++ units))%result
    | _ => encode_simple_value v
    end in
  match value with
  | VStr s => encode_string s
  | _ =>
    if isinstance_int_float value then encode_number value
    else if is_None value then encode_null value
    else if isinstance_bool value then encode_bool value
    else
      match value with
      | VList elements =>
          (parts <- (fix each (vs : list pyvalue) : result (list bytes) :=
                       match vs with
                       | [] => Ok []
                       | v :: rest =>
                           y <- encode_value' v ;;
                           ys <- each rest ;;
                           Ok (y :: ys)
                       end) elements ;;
           Ok (b "(" ++ join (b ", ") parts ++ b ")"))%result
      | VSet members =>
          (parts <- all_ok (set_iter _
                     ((fix each (vs : list pyvalue) : list (result bytes) :=
                         match vs with
                         | [] => []
                         | v :: rest => encode_value' v :: each rest
                         end) members)) ;;
           Ok (b "{" ++ join (b ", ") parts ++ b "}"))%result
      | _ => default value
      end
  end.

Definition encode_value (value : pyvalue) : result bytes :=
  match value with
  | VUnits inner unit_text =>
      (units <- encode_units unit_text ;;
       text <- encode_simple_value inner ;;
       Ok (text ++ b " " ++ units))%result
  | _ => encode_simple_value value
  end.

Definition encode_sequence (values : list pyvalue) : result bytes :=
  (parts <- collect encode_value values ;;
   Ok (join (b ", ") parts))%result.

Definition encode_list (value : list pyvalue) : result bytes :=
  (s <- encode_sequence value ;;
   Ok (b "(" ++ s ++ b ")"))%result.

(** The members of a set are encoded in the order the host yields them. *)
Definition encode_set (value : list pyvalue) : result bytes :=
  (parts <- all_ok (set_iter _ (List.map encode_value value)) ;;
   Ok (b "{" ++ join (b ", ") parts ++ b "}"))%result.

(** *** Lines *)

Definition indent (level : nat) : M unit := write (indentation_of level).

(** [encode_raw_assignment]: [PDSLabelEncoder] overrides it and reads the
    column from the instance. *)
Definition encode_raw_assignment (key value : bytes) (level : nat) : M unit :=
  (self <- get_self ;;
   match cls self with
   | PDSLabelEncoder =>
       let indented_key := indentation_of level ++ key in
       match assignment_col self with
       | None => lift (Raise (AttributeError (u "assignment_col")))
       | Some col =>
           write (ljust indented_key col) ;;
           write assignment ;;
           write value ;;
           write newline
       end
   | _ =>
       indent level ;;
       write key ;;
       write assignment ;;
       write value ;;
       write newline
   end)%enc.

Definition encode_group_begin (key : pystr) (level : nat) : M unit :=
  (self <- get_self ;;
   name <- lift (utf8 key) ;;
   encode_raw_assignment (group (cls self)) name level)%enc.

(** [IsisCubeLabelEncoder] overrides the two closing methods. *)
Definition encode_group_end (key : pystr) (level : nat) : M unit :=
  (self <- get_self ;;
   match cls self with
   | IsisCubeLabelEncoder =>
       indent level ;;
       write (end_group (cls self)) ;;
       write newline
   | _ =>
       name <- lift (utf8 key) ;;
       encode_raw_assignment (end_group (cls self)) name level
   end)%enc.

Definition encode_object_begin (key : pystr) (level : nat) : M unit :=
  (self <- get_self ;;
   name <- lift (utf8 key) ;;
   encode_raw_assignment (object (cls self)) name level)%enc.

Definition encode_object_end (key : pystr) (level : nat) : M unit :=
  (self <- get_self ;;
   match cls self with
   | IsisCubeLabelEncoder =>
       indent level ;;
       write (end_object (cls self)) ;;
       write newline
   | _ =>
       name <- lift (utf8 key) ;;
       encode_raw_assignment (end_object (cls self)) name level
   end)%enc.

Definition encode_assignment (key : pystr) (value : pyvalue) (level : nat)
  : M unit :=
  (name <- lift (utf8 key) ;;
   text <- lift (encode_value value) ;;
   encode_raw_assignment name text level)%enc.

(** *** Blocks

    [encode_statement], with the loop of [encode_block] written out where
    [encode_group] and [encode_object] descend. *)
Fixpoint encode_statement (key : pystr) (value : pyvalue) (level : nat)
  {struct value} : M unit :=
  match value with
  | VGroup items =>
      (encode_group_begin key level ;;
       (fix each (blk : block) : M unit :=
          match blk with
          | [] => ret tt
          | (k, v) :: rest => encode_statement k v (level + 1) ;; each rest
          end) items ;;
       encode_group_end key level)%enc
  | VDict items =>
      (encode_object_begin key level ;;
       (fix each (blk : block) : M unit :=
          match blk with
          | [] => ret tt
          | (k, v) :: rest => encode_statement k v (level + 1) ;; each rest
          end) items ;;
       encode_object_end key level)%enc
  | _ => encode_assignment key value level
  end.

Fixpoint encode_block (blk : block) (level : nat) : M unit :=
  match blk with
  | [] => ret tt
  | (key, value) :: rest =>
      (encode_statement key value level ;; encode_block rest level)%enc
  end.

Definition encode_group (key : pystr) (value : block) (level : nat) : M unit :=
  (encode_group_begin key level ;;
   encode_block value (level + 1) ;;
   encode_group_end key level)%enc.

Definition encode_object (key : pystr) (value : block) (level : nat) : M unit :=
  (encode_object_begin key level ;;
   encode_block value (level + 1) ;;
   encode_object_end key level)%enc.

(** *** The column of [PDSLabelEncoder] *)

(** [_key_length], with the generator of [_detect_assignment_col] written
    out where it descends. *)
Fixpoint _key_length (key : pystr) (value : pyvalue) (indent : nat)
  {struct value} : result nat :=
  let length := indent + len key in
  let descend (items : block) : result nat :=
    let indent := indent + List.length indentation in
    (lengths <- (fix each (blk : block) : result (list nat) :=
                   match blk with
                   | [] => Ok []
                   | (k, v) :: rest =>
                       x <- _key_length k v indent ;;
                       xs <- each rest ;;
                       Ok (x :: xs)
                   end) items ;;
     col <- max_of lengths ;;
     Ok (Nat.max length col))%result in
  match value with
  | VDict items => descend items
  | VGroup items => descend items
  | _ => Ok length
  end.

Definition _detect_assignment_col (blk : block) (indent : nat) : result nat :=
  (lengths <- collect (fun kv => _key_length (fst kv) (snd kv) indent) blk ;;
   max_of lengths)%result.

(** *** [encode] *)

(** [PVLEncoder.encode], which [IsisCubeLabelEncoder] inherits. *)
Definition PVLEncoder_encode (module : block) : M unit :=
  (encode_block module 0 ;;
   self <- get_self ;;
   write (end_statement (cls self)))%enc.

(** [PDSLabelEncoder.encode]: the column is assigned to the instance, then
    the inherited method runs. *)
Definition PDSLabelEncoder_encode (module : block) : M unit :=
  (self <- get_self ;;
   col <- lift (_detect_assignment_col module 0) ;;
   put_self (set_col self col) ;;
   PVLEncoder_encode module)%enc.

Definition encode (module : block) : M unit :=
  (self <- get_self ;;
   match cls self with
   | PDSLabelEncoder => PDSLabelEncoder_encode module
   | _ => PVLEncoder_encode module
   end)%enc.

End Encoder.

(** ** The validation driver ([pvl_validate.py]) *)

(** The keys of the table [dialects], in its order. *)
Inductive profile : Type := PDS3 | ODL | PVL | ISIS | Omni.

Definition profile_eqb (x y : profile) : bool :=
  match x, y with
  | PDS3, PDS3 | ODL, ODL | PVL, PVL | ISIS, ISIS | Omni, Omni => true
  | _, _ => false
  end.

Definition flavors : list profile := [PDS3; ODL; PVL; ISIS; Omni].

(** [except (LexerError, ParseError, ValueError)]: the clause also takes
    the subclasses of [ValueError]. *)
Definition caught_on_encode (e : exn) : bool :=
  match e with
  | LexerError | ParseError | ValueError | UnicodeEncodeError => true
  | _ => false
  end.

(** [except (LexerError, ParseError)]. *)
Definition caught_on_load (e : exn) : bool :=
  match e with
  | LexerError | ParseError => true
  | _ => false
  end.

(** The rest of the library, as the driver uses it: the text of a file,
    [pvl.get_text_from] and [pvl.loads] belong to the decoding side.
    Modelled from the spec: the classes [ODLEncoder] and [ISISEncoder] the
    table [dialects] names are missing from [encoder.py]; each profile
    pairs its decoder with one of the encoders of this core. *)
Class Library : Type := {
  text : Type;
  get_text_from : pystr -> result text;
  loads : text -> profile -> result block;
  ODLEncoder : encoder_class;
  ISISEncoder : encoder_class
}.

Section Validate.

Context {quoting : Quoting} {host : Host} {library : Library}.

(** The encoder objects the table [dialects] holds: one instance for each
    profile, made when the module is loaded and used for every file. *)
Definition instances : Type := profile -> encoder.

Definition dialects : instances :=
  fun k =>
    match k with
    | PDS3 => Encoder PDSLabelEncoder None
    | ODL => Encoder ODLEncoder None
    | PVL => Encoder PVLEncoder None
    | ISIS => Encoder ISISEncoder None
    | Omni => Encoder PVLEncoder None
    end.

Definition update (st : instances) (k : profile) (self : encoder) : instances :=
  fun k' => if profile_eqb k k' then self else st k'.

(** Modelled from the spec: [pvl.dumps], of the package's [__init__], runs
    the profile's encoder on the tree with a fresh stream and returns what
    was written. *)
Definition dumps (some_pvl : block) (k : profile) (st : instances)
  : result bytes * instances :=
  match encode some_pvl (st k, []) with
  | (Ok _, (self, out)) => (Ok out, update st k self)
  | (Raise e, (self, _)) => (Raise e, update st k self)
  end.

(** [pvl_flavor]: the pair [(loads, encodes)], each [True], [False] or
    [None]; an exception no clause takes leaves the function.  The
    arguments [filename] and [verbose] only feed the log and are left
    out; [decenc] is the entry of [dialects] under the key [dialect]. *)
Definition pvl_flavor (txt : text) (dialect : profile) (st : instances)
  : result (option bool * option bool) * instances :=
  match loads txt dialect with
  | Ok some_pvl =>
      match dumps some_pvl dialect st with
      | (Ok _, st') => (Ok (Some true, Some true), st')
      | (Raise err, st') =>
          if caught_on_encode err then (Ok (Some true, Some false), st')
          else (Raise err, st')
      end
  | Raise err =>
      if caught_on_load err then (Ok (Some false, None), st)
      else (Raise err, st)
  end.

(** The loop over [dialects.items()] in [main], filling [results]. *)
Fixpoint each_flavor (txt : text) (ks : list profile) (st : instances)
  : result (list (profile * (option bool * option bool))) * instances :=
  match ks with
  | [] => (Ok [], st)
  | k :: rest =>
      match pvl_flavor txt k st with
      | (Ok r, st') =>
          match each_flavor txt rest st' with
          | (Ok rs, st'') => (Ok ((k, r) :: rs), st'')
          | (Raise e, st'') => (Raise e, st'')
          end
      | (Raise e, st') => (Raise e, st')
      end
  end.

(** [main], up to the list [results_list] it hands to [report]: the loop
    over [args.file].  [arg_parser] declares [file] with [nargs='+'] and
    leaves the program when no file is given, so that the program comes
    to the loop with one file at least; the empty list is the end of the
    loop. *)
Fixpoint main (files : list pystr) (st : instances)
  : result (list (pystr * list (profile * (option bool * option bool))))
    * instances :=
  match files with
  | [] => (Ok [], st)
  | f :: rest =>
      match get_text_from f with
      | Raise e => (Raise e, st)
      | Ok pvl_text =>
          match each_flavor pvl_text flavors st with
          | (Raise e, st') => (Raise e, st')
          | (Ok results, st') =>
              match main rest st' with
              | (Ok results_list, st'') => (Ok ((f, results) :: results_list), st'')
              | (Raise e, st'') => (Raise e, st'')
              end
          end
      end
  end.

End Validate.

(** ** Sample collaborators, for the concrete runs below *)

(** A quoting collaborator that quotes nothing. *)
Definition plain_quoting : Quoting :=
  {| needs_quotes := fun _ => false; quote_string := utf8 |}.

(** A [repr] that names only the class of the object. *)
Definition repr_class (value : pyvalue) : pystr :=
  match value with
  | VDict _ => u "<dict>"
  | VGroup _ => u "<PVLGroup>"
  | VUnits _ _ => u "<Units>"
  | _ => u "<object>"
  end.

(** Two hosts: one yields the members of a set as listed, the other in
    the opposite order. *)
Definition listing_host : Host :=
  {| repr_host := repr_class; set_iter := fun A xs => xs |}.

Definition reversing_host : Host :=
  {| repr_host := repr_class; set_iter := fun A xs => rev xs |}.

(** [encode] with the sample collaborators. *)
Definition sample_encode (module : block) : M unit :=
  encode (quoting := plain_quoting) (host := listing_host) module.

(** ** Notions the statements are written in *)

(** *** Lines as text *)

(** The text of one [encode_raw_assignment] line; under [PDSLabelEncoder]
    there is none while the instance has no column. *)
Definition raw_line (self : encoder) (level : nat) (key value : bytes)
  : result bytes :=
  match cls self with
  | PDSLabelEncoder =>
      match assignment_col self with
      | Some col =>
          Ok (ljust (indentation_of level ++ key) col
              ++ assignment ++ value ++ newline)
      | None => Raise (AttributeError (u "assignment_col"))
      end
  | _ => Ok (indentation_of level ++ key ++ assignment ++ value ++ newline)
  end.

(** The closing line of a block, after the specification: the closing
    token alone under the Cube dialect, the closing token assigned the
    name of the block under the two others. *)
Definition close_line (self : encoder) (level : nat) (token name : bytes)
  : result bytes :=
  match cls self with
  | IsisCubeLabelEncoder => Ok (indentation_of level ++ token ++ newline)
  | _ => raw_line self level token name
  end.

(** [nested self level blk out]: [out] is a text for the entries of [blk]
    at [level] in which every group and every object of [blk] has one
    opening line, then the text of its entries one level deeper, then one
    closing line at the level of the opening line. *)
Inductive nested (self : encoder) : nat -> block -> bytes -> Prop :=
| nested_nil : forall level, nested self level [] []
| nested_assignment : forall level key value rest name text line out,
    isinstance_dict value = false ->
    raw_line self level name text = Ok line ->
    nested self level rest out ->
    nested self level ((key, value) :: rest) (line ++ out)
| nested_group : forall level key items rest name opening body closing out,
    utf8 key = Ok name ->
    raw_line self level (group (cls self)) name = Ok opening ->
    nested self (level + 1) items body ->
    close_line self level (end_group (cls self)) name = Ok closing ->
    nested self level rest out ->
    nested self level ((key, VGroup items) :: rest)
           (opening ++ body ++ closing ++ out)
| nested_object : forall level key items rest name opening body closing out,
    utf8 key = Ok name ->
    raw_line self level (object (cls self)) name = Ok opening ->
    nested self (level + 1) items body ->
    close_line self level (end_object (cls self)) name = Ok closing ->
    nested self level rest out ->
    nested self level ((key, VDict items) :: rest)
           (opening ++ body ++ closing ++ out).

(** *** The column, after the specification *)

(** The candidate lengths of an entry at depth [d] and of all the entries
    below it, depth first: depth times the width of the indentation unit,
    plus the length of the key. *)
Fixpoint entry_candidates (d : nat) (key : pystr) (value : pyvalue)
  {struct value} : list nat :=
  (d * List.length indentation + len key) ::
  match value with
  | VDict items =>
      flat_map (fun kv => entry_candidates (S d) (fst kv) (snd kv)) items
  | VGroup items =>
      flat_map (fun kv => entry_candidates (S d) (fst kv) (snd kv)) items
  | _ => []
  end.

Definition candidates (d : nat) (blk : block) : list nat :=
  flat_map (fun kv => entry_candidates d (fst kv) (snd kv)) blk.

Definition is_empty {A} (xs : list A) : bool :=
  match xs with
  | [] => true
  | _ => false
  end.

(** No mapping at or below the value is empty. *)
Fixpoint populated (value : pyvalue) : bool :=
  match value with
  | VDict items =>
      negb (is_empty items) && forallb (fun kv => populated (snd kv)) items
  | VGroup items =>
      negb (is_empty items) && forallb (fun kv => populated (snd kv)) items
  | _ => true
  end.

Definition populated_block (blk : block) : bool :=
  negb (is_empty blk) && forallb (fun kv => populated (snd kv)) blk.

(** [entry_at d key blk]: an entry with this key lies [d] mappings below
    the top of [blk]. *)
Inductive entry_at : nat -> pystr -> block -> Prop :=
| entry_here : forall key value blk,
    In (key, value) blk -> entry_at 0 key blk
| entry_in_object : forall d key name items blk,
    In (name, VDict items) blk -> entry_at d key items ->
    entry_at (S d) key blk
| entry_in_group : forall d key name items blk,
    In (name, VGroup items) blk -> entry_at d key items ->
    entry_at (S d) key blk.

(** *** Trees without sets *)

Fixpoint no_set (value : pyvalue) : bool :=
  match value with
  | VSet _ => false
  | VList elements => forallb no_set elements
  | VUnits inner _ => no_set inner
  | VDict items => forallb (fun kv => no_set (snd kv)) items
  | VGroup items => forallb (fun kv => no_set (snd kv)) items
  | _ => true
  end.

Definition no_set_block (blk : block) : bool :=
  forallb (fun kv => no_set (snd kv)) blk.

(** *** The place of an entry in a tree *)

(** A path from the top of a tree to one of its entries: the siblings
    before and after it, and the same around each mapping on the way. *)
Inductive path : Type :=
| Here (before : block) (key : pystr) (after : block)
| Inside (before : block) (key : pystr) (is_group : bool) (inner : path)
         (after : block).

Definition mapping (is_group : bool) (items : block) : pyvalue :=
  if is_group then VGroup items else VDict items.

(** The tree that has [value] at the entry the path leads to. *)
Fixpoint plug (p : path) (value : pyvalue) : block :=
  match p with
  | Here before key after => before ++ (key, value) :: after
  | Inside before key is_group inner after =>
      before ++ (key, mapping is_group (plug inner value)) :: after
  end.

Section Before.

Context {quoting : Quoting} {host : Host}.

(** What [encode_block] runs before it comes to the entry of the path:
    the siblings before it, and on the way down the siblings before each
    mapping and the opening line of the mapping. *)
Fixpoint encode_before (p : path) (level : nat) : M unit :=
  match p with
  | Here before _ _ =>
      encode_block before level
  | Inside before key is_group inner _ =>
      (encode_block before level ;;
       (if is_group then encode_group_begin key level
        else encode_object_begin key level) ;;
       encode_before inner (level + 1))%enc
  end.

(** What [encode] runs before [encode_block]: under [PDSLabelEncoder], the
    assignment of the column to the instance. *)
Definition encode_prelude (module : block) : M unit :=
  (self <- get_self ;;
   match cls self with
   | PDSLabelEncoder =>
       col <- lift (_detect_assignment_col module 0) ;;
       put_self (set_col self col)
   | _ => ret tt
   end)%enc.

(** The line of an entry that is no mapping. *)
Definition assignment_line (self : encoder) (level : nat) (key : pystr)
  (value : pyvalue) : result bytes :=
  (name <- utf8 key ;;
   text <- encode_value value ;;
   raw_line self level name text)%result.

End Before.

(** The key of the entry a path leads to. *)
Fixpoint path_key (p : path) : pystr :=
  match p with
  | Here _ key _ => key
  | Inside _ _ _ inner _ => path_key inner
  end.

(** *** The lines of [PDSLabelEncoder], byte by byte *)

(** One line of [PDSLabelEncoder.encode_raw_assignment] for the column
    [col]: the key slot, which is [level] times two spaces and the key,
    filled with spaces up to [col] bytes where it has fewer and left as it
    is where it has more; then the assignment token, the value and the
    line break. *)
Definition pds_line (col level : nat) (key value : bytes) : bytes :=
  ljust (repeat " "%byte (2 * level) ++ key) col
  ++ b " = " ++ value ++ [x0a].

(** [assigned_at d key blk]: an entry of this key that is no mapping, and
    so has a line of its own with the key in the key slot, lies [d]
    mappings below the top of [blk]. *)
Inductive assigned_at : nat -> pystr -> block -> Prop :=
| assigned_here : forall key value blk,
    In (key, value) blk -> isinstance_dict value = false ->
    assigned_at 0 key blk
| assigned_in_object : forall d key name items blk,
    In (name, VDict items) blk -> assigned_at d key items ->
    assigned_at (S d) key blk
| assigned_in_group : forall d key name items blk,
    In (name, VGroup items) blk -> assigned_at d key items ->
    assigned_at (S d) key blk.

Section PdsLines.

Context {quoting : Quoting} {host : Host}.

(** [padded col level blk out]: [out] is the entries of [blk] at [level],
    line after line in the order of the entries, every line a [pds_line]
    of the one column [col]: for an entry that is no mapping the UTF-8 key
    and the text of the value; for a group the line of the token [GROUP]
    and the name, the entries of the group one level deeper, and the line
    of the token [END] and the name; for any other mapping the same with
    the token [OBJECT]. *)
Inductive padded (col : nat) : nat -> block -> bytes -> Prop :=
| padded_nil : forall level, padded col level [] []
| padded_assignment : forall level key value rest name text out,
    isinstance_dict value = false ->
    utf8 key = Ok name ->
    encode_value value = Ok text ->
    padded col level rest out ->
    padded col level ((key, value) :: rest)
           (pds_line col level name text ++ out)
| padded_group : forall level key items rest name body out,
    utf8 key = Ok name ->
    padded col (level + 1) items body ->
    padded col level rest out ->
    padded col level ((key, VGroup items) :: rest)
           (pds_line col level (b "GROUP") name ++ body
            ++ pds_line col level (b "END") name ++ out)
| padded_object : forall level key items rest name body out,
    utf8 key = Ok name ->
    padded col (level + 1) items body ->
    padded col level rest out ->
    padded col level ((key, VDict items) :: rest)
           (pds_line col level (b "OBJECT") name ++ body
            ++ pds_line col level (b "END") name ++ out).

End PdsLines.

(** *** What a run does to the stream *)

(** [writes m self r out]: run on the instance [self], whatever the stream
    holds, the method ends in [r], leaves the instance as it was and has
    appended [out] to the stream. *)
Definition writes {A} (m : M A) (self : encoder) (r : result A) (out : bytes)
  : Prop :=
  forall stream, m (self, stream) = (r, (self, stream ++ out)).

(** The outcome and the text of a line that may fail to be built. *)
Definition done (line : result bytes) : result unit :=
  match line with
  | Ok _ => Ok tt
  | Raise e => Raise e
  end.

Definition text_of (line : result bytes) : bytes :=
  match line with
  | Ok x => x
  | Raise _ => []
  end.

(** The line that opens a block. *)
Definition opening (self : encoder) (level : nat) (token : bytes) (key : pystr)
  : result bytes :=
  rbind (utf8 key) (raw_line self level token).

(** The line that closes a block, as the methods build it. *)
Definition closing (self : encoder) (level : nat) (token : bytes) (key : pystr)
  : result bytes :=
  match cls self with
  | IsisCubeLabelEncoder => Ok (indentation_of level ++ token ++ newline)
  | _ => rbind (utf8 key) (raw_line self level token)
  end.

(** [runs m self r self' out]: as [writes], for a method that may leave
    the instance changed, as [self']. *)
Definition runs {A} (m : M A) (self : encoder) (r : result A)
  (self' : encoder) (out : bytes) : Prop :=
  forall stream, m (self, stream) = (r, (self', stream ++ out)).

(** How a nested mapping ends and what it writes, from its three parts. *)
Definition wrapped_result (first : result bytes) (r : result unit)
  (last : result bytes) : result unit :=
  match first, r with
  | Ok _, Ok _ => done last
  | Ok _, Raise e => Raise e
  | Raise e, _ => Raise e
  end.

Definition wrapped_text (first : result bytes) (r : result unit) (out : bytes)
  (last : result bytes) : bytes :=
  match first, r with
  | Ok x, Ok _ => x ++ out ++ text_of last
  | Ok x, Raise _ => x ++ out
  | Raise _, _ => []
  end.

(** Two instances a traversal cannot tell apart: the same class, and the
    same column where the class reads it. *)
Definition alike (self1 self2 : encoder) : Prop :=
  cls self1 = cls self2
  /\ (cls self1 = PDSLabelEncoder ->
      assignment_col self1 = assignment_col self2).

(** ** The report ([pvl_validate.py]) *)

(** The exceptions of a failed lookup, which no clause of the driver
    takes. *)
Definition IndexError : exn := OtherError (u "IndexError").
Definition KeyError : exn := OtherError (u "KeyError").

(** The pair [pvl_flavor] returns. *)
Abbreviation outcome := (option bool * option bool)%type.

(** The keys of [dialects], as the texts they are. *)
Definition flavor_name (k : profile) : pystr :=
  match k with
  | PDS3 => u "PDS3"
  | ODL => u "ODL"
  | PVL => u "PVL"
  | ISIS => u "ISIS"
  | Omni => u "Omni"
  end.

Fixpoint pystr_eqb (x y : pystr) : bool :=
  match x, y with
  | [], [] => true
  | c :: x', d :: y' => (c =? d)%N && pystr_eqb x' y'
  | _, _ => false
  end.

(** [d[key]] on a [dict], held as its items in the order of insertion:
    [KeyError] when the key is missing. *)
Definition dict_get {K V} (eqb : K -> K -> bool) (d : list (K * V)) (key : K)
  : result V :=
  match find (fun kv => eqb (fst kv) key) d with
  | Some kv => Ok (snd kv)
  | None => Raise KeyError
  end.

Definition option_bool_eqb (x y : option bool) : bool :=
  match x, y with
  | Some a, Some c => Bool.eqb a c
  | None, None => true
  | _, _ => false
  end.

(** [' ' * n]. *)
Definition spaces (n : nat) : pystr := repeat 32%N n.

(** ['{0:<{width}}'.format(s, width=width)]. *)
Definition format_left (s : pystr) (width : nat) : pystr :=
  s ++ spaces (width - len s).

(** ['{0:^{width}}'.format(s, width=width)]: of an odd number of spaces,
    the greater half goes to the right. *)
Definition format_center (s : pystr) (width : nat) : pystr :=
  let pad := width - len s in
  spaces (pad / 2) ++ s ++ spaces (pad - pad / 2).

(** [sep.join(parts)] on texts. *)
Fixpoint join_str (sep : pystr) (parts : list pystr) : pystr :=
  match parts with
  | [] => []
  | [x] => x
  | x :: rest => x ++ sep ++ join_str sep rest
  end.

(** [max(xs, key=len)]: the first of the longest; [ValueError] when there
    is none. *)
Definition max_by_len (xs : list pystr) : result pystr :=
  match xs with
  | [] => Raise ValueError
  | x :: rest =>
      Ok (fold_left (fun best y => if len best <? len y then y else best)
                    rest x)
  end.

(** [s.replace(old, new)] for texts [old] and [new] of one character. *)
Definition replace_char (old new : N) (s : pystr) : pystr :=
  List.map (fun c => if (c =? old)%N then new else c) s.

(** The default separator of [build_line] and the line break. *)
Definition sep : pystr := u " | ".
Definition line_break : pystr := [10%N].

Definition build_line (elements : list pystr) (widths : list nat)
  (sep : pystr) : result pystr :=
  match elements, widths with
  | e0 :: es, w0 :: ws =>
      Ok (join_str sep
            (format_left e0 w0
             :: List.map (fun ew => format_center (fst ew) (snd ew))
                         (combine es ws)))
  | _, _ => Raise IndexError
  end.

(** The tables [loads] and [encodes] of [report]. *)
Definition report_loads : list (option bool * pystr) :=
  [(Some true, u "Loads"); (Some false, u "does NOT load")].

Definition report_encodes : list (option bool * pystr) :=
  [(Some true, u "Encodes"); (Some false, u "does NOT encode"); (None, [])].

(** The tables [loads] and [encodes] of [report_many]. *)
Definition many_loads : list (option bool * pystr) :=
  [(Some true, u "L"); (Some false, u "No L")].

Definition many_encodes : list (option bool * pystr) :=
  [(Some true, u "E"); (Some false, u "No E"); (None, [])].

(** [len(max(table.values(), key=len))]. *)
Definition widest (table : list (option bool * pystr)) : result nat :=
  (x <- max_by_len (List.map snd table) ;; Ok (len x))%result.

(** The list [lines] of [report_many]. *)
Definition report_many_lines (r_list : list (pystr * list (pystr * outcome)))
  (flavors : list pystr) : result (list pystr) :=
  (longest <- max_by_len (List.map fst r_list) ;;
   let col1w := len longest in
   col2w <- widest many_loads ;;
   col3w <- widest many_encodes ;;
   let flavorw := col2w + col3w + 1 in
   let header := u "File" :: flavors in
   let headerw := col1w :: repeat flavorw (List.length flavors) in
   let rule := spaces col1w :: repeat (spaces flavorw) (List.length flavors) in
   ruled <- build_line rule headerw sep ;;
   let rule_line := replace_char 32 45 (replace_char 124 43 ruled) in
   header_line <- build_line header headerw sep ;;
   rows <- collect
             (fun r =>
                cells <- collect
                           (fun f =>
                              pair <- dict_get pystr_eqb (snd r) f ;;
                              l <- dict_get option_bool_eqb many_loads
                                            (fst pair) ;;
                              e <- dict_get option_bool_eqb many_encodes
                                            (snd pair) ;;
                              Ok (format_center l col2w ++ spaces 1
                                    ++ format_center e col3w))
                           flavors ;;
                build_line (fst r :: cells)
                           (col1w :: repeat flavorw (List.length flavors))
                           sep)
             r_list ;;
   Ok (rule_line :: header_line :: rule_line :: rows))%result.

Definition report_many (r_list : list (pystr * list (pystr * outcome)))
  (flavors : list pystr) : result pystr :=
  (lines <- report_many_lines r_list flavors ;;
   Ok (join_str line_break lines))%result.

(** The list [lines] of [report], for the one file it is given. *)
Definition report_lines (r : list (pystr * outcome)) (flavors : list pystr)
  : result (list pystr) :=
  (longest <- max_by_len flavors ;;
   let col1w := len longest in
   col2w <- widest report_loads ;;
   col3w <- widest report_encodes ;;
   collect (fun k =>
              pair <- dict_get pystr_eqb r k ;;
              l <- dict_get option_bool_eqb report_loads (fst pair) ;;
              e <- dict_get option_bool_eqb report_encodes (snd pair) ;;
              build_line [k; l; e] [col1w; col2w; col3w] sep)
           flavors)%result.

Definition report (reports : list (pystr * list (pystr * outcome)))
  (flavors : list pystr) : result pystr :=
  match reports with
  | [] => Raise IndexError
  | first :: _ =>
      if negb (List.length (snd first) =? List.length flavors)
      then Raise IndexError
      else if 1 <? List.length reports
      then report_many reports flavors
      else
        (lines <- report_lines (snd first) flavors ;;
         Ok (join_str line_break lines))%result
  end.

(** The dictionary [results] of [main], under the keys of [dialects]. *)
Definition named (results : list (profile * outcome))
  : list (pystr * outcome) :=
  List.map (fun kr => (flavor_name (fst kr), snd kr)) results.

Section Printed.

Context {quoting : Quoting} {host : Host} {library : Library}.

(** [main] to its end: what it prints, [report] of the list of results
    and of the keys of [dialects].  With no file, [parse_args] leaves the
    program by [SystemExit] before the loop. *)
Definition main_printed (files : list pystr) (st : instances)
  : result pystr * instances :=
  match files with
  | [] => (Raise (OtherError (u "SystemExit")), st)
  | _ :: _ =>
      match main files st with
      | (Ok results_list, st') =>
          (report (List.map (fun fr => (fst fr, named (snd fr))) results_list)
                  (List.map flavor_name flavors),
           st')
      | (Raise e, st') => (Raise e, st')
      end
  end.

End Printed.

(** *** Notions of the driver and of the report *)

(** The width of a cell: its text when it is wider than the column. *)
Definition cell_width (ew : pystr * nat) : nat :=
  Nat.max (len (fst ew)) (snd ew).

(** Two tables of instances with the same classes. *)
Definition same_classes (st1 st2 : instances) : Prop :=
  forall k, cls (st1 k) = cls (st2 k).

(** The three pairs [pvl_flavor] can return. *)
Definition reported (o : outcome) : Prop :=
  o = (Some false, None) \/ o = (Some true, Some true)
  \/ o = (Some true, Some false).

(** What a list of results is like when [main] got to its end. *)
Definition well_formed
  (results_list : list (pystr * list (profile * outcome)))
  (files : list pystr) : Prop :=
  List.map fst results_list = files
  /\ Forall (fun fr =>
               List.map fst (snd fr) = flavors
               /\ Forall (fun kr => reported (snd kr)) (snd fr))
            results_list.

(** ** Further notions: which trees encode, and how runs fail *)

Definition is_ok {A} (r : result A) : bool :=
  match r with
  | Ok _ => true
  | Raise _ => false
  end.

(** An instance from which [encode_raw_assignment] can build a line:
    under [PDSLabelEncoder] the column is set. *)
Definition ready (self : encoder) : Prop :=
  cls self = PDSLabelEncoder -> assignment_col self <> None.

Section Criteria.

Context {quoting : Quoting} {host : Host}.

(** An entry all of whose texts can be built: its key has a UTF-8 form
    and so have the keys below it, and every value that is no mapping has
    a text. *)
Fixpoint encodable (key : pystr) (value : pyvalue) {struct value} : bool :=
  is_ok (utf8 key)
  && match value with
     | VDict items => forallb (fun kv => encodable (fst kv) (snd kv)) items
     | VGroup items => forallb (fun kv => encodable (fst kv) (snd kv)) items
     | _ => is_ok (encode_value value)
     end.

Definition encodable_block (blk : block) : bool :=
  forallb (fun kv => encodable (fst kv) (snd kv)) blk.

(** The exceptions of the quoting collaborator on the texts it is asked
    to quote. *)
Definition quoting_raises (e : exn) : Prop :=
  exists s, needs_quotes s = true /\ quote_string s = Raise e.

(** The exceptions of [default]. *)
Definition not_serializable (e : exn) : Prop :=
  exists value, e = TypeError (repr value ++ u " is not serializable").

(** The failures of a value. *)
Definition value_failure (e : exn) : Prop :=
  not_serializable e \/ e = UnicodeEncodeError \/ quoting_raises e.

(** A host whose sets yield nothing but their members. *)
Definition yields_members : Prop :=
  forall (A : Type) (xs : list A) (x : A), In x (set_iter A xs) -> In x xs.

(** A host whose sets yield their members, each once, in some order. *)
Definition permutes_members : Prop :=
  forall (A : Type) (xs : list A), Permutation (set_iter A xs) xs.

End Criteria.

(** ** Concrete data *)

(** The label of the specification: an entry and a group of one entry. *)
Definition label_with_group : block :=
  [(u "A", VInt 1); (u "X", VGroup [(u "B", VInt 2)])].

(** A path to the entry [C] of the group [G], between other entries. *)
Definition path_to_C : path :=
  Inside [(u "A", VInt 1)] (u "G") true
         (Here [(u "B", VInt 2)] (u "C") [(u "D", VInt 3)])
         [(u "E", VInt 4)].

(** The [repr] of a date, a class the encoder does not know. *)
Definition a_date : pystr := u "datetime.date(2020, 1, 1)".

(** A library whose decoder reads every file as one entry holding a
    date. *)
Definition dated_library : Library :=
  {| text := unit;
     get_text_from := fun _ => Ok tt;
     loads := fun _ _ => Ok [(u "START_TIME", VOther a_date)];
     ODLEncoder := PVLEncoder;
     ISISEncoder := IsisCubeLabelEncoder |}.

(** A library whose decoder reads every file as the empty mapping under
    the profile [PDS3], refuses it under [ODL] and reads it as one entry
    under the other profiles. *)
Definition mixed_library : Library :=
  {| text := unit;
     get_text_from := fun _ => Ok tt;
     loads := fun _ k =>
                match k with
                | PDS3 => Ok []
                | ODL => Raise ParseError
                | _ => Ok [(u "A", VInt 1)]
                end;
     ODLEncoder := PVLEncoder;
     ISISEncoder := IsisCubeLabelEncoder |}.

(** The results of one file under [mixed_library]. *)
Definition mixed_results : list (profile * outcome) :=
  [(PDS3, (Some true, Some false)); (ODL, (Some false, None));
   (PVL, (Some true, Some true)); (ISIS, (Some true, Some true));
   (Omni, (Some true, Some true))].

(** The report on [mixed_results], line by line. *)
Definition mixed_report_lines : list pystr :=
  [u "PDS3 |     Loads     | does NOT encode";
   u "ODL  | does NOT load |                ";
   u "PVL  |     Loads     |     Encodes    ";
   u "ISIS |     Loads     |     Encodes    ";
   u "Omni |     Loads     |     Encodes    "].

(** The table for two files with the results [mixed_results]. *)
Definition mixed_table_lines : list pystr :=
  [u "------+-----------+-----------+-----------+-----------+----------";
   u "File  |   PDS3    |    ODL    |    PVL    |   ISIS    |   Omni   ";
   u "------+-----------+-----------+-----------+-----------+----------";
   u "a.lbl |  L   No E | No L      |  L    E   |  L    E   |  L    E  ";
   u "bb    |  L   No E | No L      |  L    E   |  L    E   |  L    E  "].

(** * Properties *)

(** ** Values, one by one *)

Example str_int_samples :
  str_int 1 = u "1" /\ str_int 0 = u "0" /\ str_int (-42) = u "-42".
Proof. repeat split; reflexivity. Qed.

Example utf8_samples :
  utf8 (u "LONGKEY") = Ok (b "LONGKEY")
  /\ utf8 [233%N] = Ok [xc3; xa9]
  /\ utf8 [8364%N] = Ok [xe2; x82; xac]
  /\ utf8 [55296%N] = Raise UnicodeEncodeError.
Proof. repeat split; reflexivity. Qed.

Example encode_value_samples :
  let encode_value := encode_value (quoting := plain_quoting)
                                   (host := listing_host) in
  encode_value (VUnits (VInt 1) (u "km")) = Ok (b "1 <km>")
  /\ encode_value (VList [VInt 1; VInt 2; VInt 3]) = Ok (b "(1, 2, 3)")
  /\ encode_value (VSet [VInt 1; VInt 2; VInt 3]) = Ok (b "{1, 2, 3}")
  /\ encode_value VNone = Ok (b "NULL")
  /\ encode_value (VStr (u "abc")) = Ok (b "abc")
  /\ encode_value (VFloat (u "1.5")) = Ok (b "1.5")
  /\ encode_value (VList [VDict []])
     = Raise (TypeError (u "<dict> is not serializable")).
Proof. repeat split; reflexivity. Qed.

(** ** Induction over nested values and blocks *)

Lemma pyvalue_nested_ind (P : pyvalue -> Prop) :
  (forall s, P (VStr s)) ->
  (forall z, P (VInt z)) ->
  (forall t, P (VFloat t)) ->
  (forall x, P (VBool x)) ->
  P VNone ->
  (forall elements, Forall P elements -> P (VList elements)) ->
  (forall members, Forall P members -> P (VSet members)) ->
  (forall inner units, P inner -> P (VUnits inner units)) ->
  (forall items, Forall (fun kv => P (snd kv)) items -> P (VDict items)) ->
  (forall items, Forall (fun kv => P (snd kv)) items -> P (VGroup items)) ->
  (forall r, P (VOther r)) ->
  forall value, P value.
Proof.
  intros Hs Hz Hf Hb Hn Hl Hset Hu Hd Hg Ho.
  fix IH 1.
  intros [s|z|t|x| |l|l|inner units|items|items|r].
  - apply Hs.
  - apply Hz.
  - apply Hf.
  - apply Hb.
  - apply Hn.
  - apply Hl. induction l as [|v l IHl]; constructor; [apply IH | exact IHl].
  - apply Hset. induction l as [|v l IHl]; constructor; [apply IH | exact IHl].
  - apply Hu. apply IH.
  - apply Hd. induction items as [|[k v] items IHi]; constructor;
      [apply IH | exact IHi].
  - apply Hg. induction items as [|[k v] items IHi]; constructor;
      [apply IH | exact IHi].
  - apply Ho.
Qed.

Lemma block_nested_ind (P : block -> Prop) :
  P [] ->
  (forall key value rest,
      isinstance_dict value = false -> P rest -> P ((key, value) :: rest)) ->
  (forall key items rest,
      P items -> P rest -> P ((key, VGroup items) :: rest)) ->
  (forall key items rest,
      P items -> P rest -> P ((key, VDict items) :: rest)) ->
  forall blk, P blk.
Proof.
  intros Hnil Ha Hg Hd blk.
  assert (H : forall value,
             match value with
             | VDict items => P items
             | VGroup items => P items
             | _ => True
             end).
  { induction value using pyvalue_nested_ind; auto.
    - induction H as [|[k v] items Hv _ IHi]; [exact Hnil|].
      destruct v; try (apply Ha; [reflexivity | exact IHi]).
      + apply Hd; assumption.
      + apply Hg; assumption.
    - induction H as [|[k v] items Hv _ IHi]; [exact Hnil|].
      destruct v; try (apply Ha; [reflexivity | exact IHi]).
      + apply Hd; assumption.
      + apply Hg; assumption. }
  exact (H (VDict blk)).
Qed.

(** ** What a method writes *)

Lemma writes_ret {A} (a : A) self : writes (ret a) self (Ok a) [].
Proof. intro s. unfold ret. now rewrite app_nil_r. Qed.

Lemma writes_lift {A} (r : result A) self : writes (lift r) self r [].
Proof. intro s. unfold lift. now rewrite app_nil_r. Qed.

Lemma writes_write data self : writes (write data) self (Ok tt) data.
Proof. intro s. reflexivity. Qed.

Lemma writes_get_self self : writes get_self self (Ok self) [].
Proof. intro s. unfold get_self. simpl. now rewrite app_nil_r. Qed.

Lemma writes_bind_ok {A B} (m : M A) (k : A -> M B) self a o1 r o2 :
  writes m self (Ok a) o1 -> writes (k a) self r o2 ->
  writes (bind m k) self r (o1 ++ o2).
Proof.
  intros Hm Hk s. unfold bind. rewrite Hm, Hk. now rewrite app_assoc.
Qed.

Lemma writes_bind_raise {A B} (m : M A) (k : A -> M B) self e o :
  writes m self (Raise e) o -> writes (bind m k) self (Raise e) o.
Proof. intros Hm s. unfold bind. now rewrite Hm. Qed.

Lemma writes_unique {A} (m : M A) self r r' o o' :
  writes m self r o -> writes m self r' o' -> r = r' /\ o = o'.
Proof.
  intros H H'. specialize (H []). specialize (H' []). rewrite H in H'.
  simpl in H'. inversion H'. auto.
Qed.

Lemma raw_assignment_writes key value level self :
  writes (encode_raw_assignment key value level) self
         (done (raw_line self level key value))
         (text_of (raw_line self level key value)).
Proof.
  intro s. destruct self as [c col].
  unfold encode_raw_assignment, raw_line, bind, get_self, indent, write, lift.
  destruct c; simpl; try (repeat rewrite <- app_assoc; reflexivity).
  destruct col; simpl.
  - repeat rewrite <- app_assoc. reflexivity.
  - now rewrite app_nil_r.
Qed.

Lemma lifted_line_writes (name : result bytes) (token : bytes) level self :
  writes (bind (lift name) (fun x => encode_raw_assignment token x level)) self
         (done (rbind name (raw_line self level token)))
         (text_of (rbind name (raw_line self level token))).
Proof.
  destruct name as [x|e]; simpl.
  - intro s. unfold bind, lift. apply raw_assignment_writes.
  - intro s. unfold bind, lift. now rewrite app_nil_r.
Qed.

Lemma group_begin_writes key level self :
  writes (encode_group_begin key level) self
         (done (opening self level (group (cls self)) key))
         (text_of (opening self level (group (cls self)) key)).
Proof.
  intro s. unfold encode_group_begin, bind at 1, get_self. simpl.
  apply lifted_line_writes.
Qed.

Lemma object_begin_writes key level self :
  writes (encode_object_begin key level) self
         (done (opening self level (object (cls self)) key))
         (text_of (opening self level (object (cls self)) key)).
Proof.
  intro s. unfold encode_object_begin, bind at 1, get_self. simpl.
  apply lifted_line_writes.
Qed.

Lemma group_end_writes key level self :
  writes (encode_group_end key level) self
         (done (closing self level (end_group (cls self)) key))
         (text_of (closing self level (end_group (cls self)) key)).
Proof.
  intro s. unfold encode_group_end, closing, bind at 1, get_self. simpl.
  destruct (cls self) eqn:C; try apply lifted_line_writes.
  unfold bind, indent, write. simpl. repeat rewrite <- app_assoc. reflexivity.
Qed.

Lemma object_end_writes key level self :
  writes (encode_object_end key level) self
         (done (closing self level (end_object (cls self)) key))
         (text_of (closing self level (end_object (cls self)) key)).
Proof.
  intro s. unfold encode_object_end, closing, bind at 1, get_self. simpl.
  destruct (cls self) eqn:C; try apply lifted_line_writes.
  unfold bind, indent, write. simpl. repeat rewrite <- app_assoc. reflexivity.
Qed.

Section Facts.

Context {quoting : Quoting} {host : Host}.

Lemma assignment_writes key value level self :
  writes (encode_assignment key value level) self
         (done (assignment_line self level key value))
         (text_of (assignment_line self level key value)).
Proof.
  unfold encode_assignment, assignment_line.
  destruct (utf8 key) as [name|e]; simpl.
  - destruct (encode_value value) as [text|e]; simpl.
    + intro s. unfold bind, lift. apply raw_assignment_writes.
    + intro s. unfold bind, lift. now rewrite app_nil_r.
  - intro s. unfold bind, lift. now rewrite app_nil_r.
Qed.

(** *** The equations of the block methods *)

Lemma encode_block_each level (items : block) :
  (fix each (blk : block) : M unit :=
     match blk with
     | [] => ret tt
     | (k, v) :: rest => bind (encode_statement k v level) (fun _ => each rest)
     end) items
  = encode_block items level.
Proof.
  induction items as [|[k v] items IH]; simpl; [reflexivity|].
  now rewrite IH.
Qed.

Lemma encode_statement_group key items level :
  encode_statement key (VGroup items) level = encode_group key items level.
Proof.
  unfold encode_group. simpl. now rewrite encode_block_each.
Qed.

Lemma encode_statement_object key items level :
  encode_statement key (VDict items) level = encode_object key items level.
Proof.
  unfold encode_object. simpl. now rewrite encode_block_each.
Qed.

Lemma encode_statement_assignment key value level :
  isinstance_dict value = false ->
  encode_statement key value level = encode_assignment key value level.
Proof.
  destruct value; simpl; intro H; try reflexivity; discriminate.
Qed.

Lemma encode_block_cons key value rest level :
  encode_block ((key, value) :: rest) level
  = bind (encode_statement key value level) (fun _ => encode_block rest level).
Proof. reflexivity. Qed.

Lemma assignment_line_ok self level key value line :
  assignment_line self level key value = Ok line ->
  exists name text,
    utf8 key = Ok name /\ encode_value value = Ok text
    /\ raw_line self level name text = Ok line.
Proof.
  unfold assignment_line. destruct (utf8 key) as [name|]; simpl; [|discriminate].
  destruct (encode_value value) as [text|]; simpl; [|discriminate].
  intro H. now exists name, text.
Qed.

Lemma closing_close_line self level token key name line :
  utf8 key = Ok name ->
  closing self level token key = Ok line ->
  close_line self level token name = Ok line.
Proof.
  unfold closing, close_line. intros Hk. rewrite Hk. simpl.
  destruct (cls self); auto.
Qed.

(** *** Blocks write what [nested] describes *)

(** A nested mapping: the opening line, the entries, the closing line. *)
Lemma wrapped_writes (items : block) level self key otoken ctoken
      (begin_ end_ : M unit) r out :
  writes begin_ self (done (opening self level otoken key))
         (text_of (opening self level otoken key)) ->
  writes end_ self (done (closing self level ctoken key))
         (text_of (closing self level ctoken key)) ->
  writes (encode_block items (level + 1)) self r out ->
  exists r' out',
    writes (bind begin_ (fun _ => bind (encode_block items (level + 1))
                                       (fun _ => end_))) self r' out'
    /\ (r' = Ok tt ->
        exists name first last,
          utf8 key = Ok name
          /\ raw_line self level otoken name = Ok first
          /\ close_line self level ctoken name = Ok last
          /\ r = Ok tt
          /\ out' = first ++ out ++ last).
Proof.
  intros Hb He Hi.
  destruct (opening self level otoken key) as [first|e] eqn:Eo; simpl in Hb.
  - destruct r as [[]|e].
    + destruct (closing self level ctoken key) as [last|e] eqn:Ec; simpl in He.
      * exists (Ok tt), (first ++ out ++ last). split.
        { eapply writes_bind_ok; [exact Hb|].
          eapply writes_bind_ok; [exact Hi|exact He]. }
        intros _. unfold opening in Eo.
        destruct (utf8 key) as [name|] eqn:Ek; simpl in Eo; [|discriminate].
        exists name, first, last. repeat split; auto.
        eapply closing_close_line; eauto.
      * exists (Raise e), (first ++ out ++ []). split; [|discriminate].
        eapply writes_bind_ok; [exact Hb|].
        eapply writes_bind_ok; [exact Hi|exact He].
    + exists (Raise e), (first ++ out). split; [|discriminate].
      eapply writes_bind_ok; [exact Hb|].
      apply writes_bind_raise. exact Hi.
  - exists (Raise e), []. split; [|discriminate].
    apply writes_bind_raise. exact Hb.
Qed.

Lemma block_writes (blk : block) :
  forall level self,
    exists r out,
      writes (encode_block blk level) self r out
      /\ (r = Ok tt -> nested self level blk out).
Proof.
  induction blk as [|key value rest Hv IHrest|key items rest IHitems IHrest
                   |key items rest IHitems IHrest] using block_nested_ind;
    intros level self.
  - exists (Ok tt), []. split; [apply writes_ret|]. intros _. constructor.
  - rewrite encode_block_cons, encode_statement_assignment by exact Hv.
    destruct (IHrest level self) as (r2 & o2 & W2 & N2).
    pose proof (assignment_writes key value level self) as W1.
    destruct (assignment_line self level key value) as [line|e] eqn:E;
      simpl in W1.
    + exists r2, (line ++ o2). split.
      * eapply writes_bind_ok; eauto.
      * intro Hr. destruct (assignment_line_ok _ _ _ _ _ E) as (n & t & _ & _ & L).
        eapply nested_assignment; eauto.
    + exists (Raise e), []. split; [|discriminate].
      now apply writes_bind_raise.
  - rewrite encode_block_cons, encode_statement_group. unfold encode_group.
    destruct (IHitems (level + 1) self) as (ri & oi & Wi & Ni).
    destruct (IHrest level self) as (r2 & o2 & W2 & N2).
    destruct (wrapped_writes items level self key _ _ _ _ _ _
                             (group_begin_writes key level self)
                             (group_end_writes key level self) Wi)
      as (r' & o' & W' & N').
    destruct r' as [[]|e].
    + destruct (N' eq_refl) as (n & f & l & Hk & Hf & Hl & Hr & Ho). subst.
      exists r2, ((f ++ oi ++ l) ++ o2). split.
      * eapply writes_bind_ok; eauto.
      * intro Hr2. repeat rewrite <- app_assoc.
        eapply nested_group; eauto.
    + exists (Raise e), o'. split; [|discriminate].
      now apply writes_bind_raise.
  - rewrite encode_block_cons, encode_statement_object. unfold encode_object.
    destruct (IHitems (level + 1) self) as (ri & oi & Wi & Ni).
    destruct (IHrest level self) as (r2 & o2 & W2 & N2).
    destruct (wrapped_writes items level self key _ _ _ _ _ _
                             (object_begin_writes key level self)
                             (object_end_writes key level self) Wi)
      as (r' & o' & W' & N').
    destruct r' as [[]|e].
    + destruct (N' eq_refl) as (n & f & l & Hk & Hf & Hl & Hr & Ho). subst.
      exists r2, ((f ++ oi ++ l) ++ o2). split.
      * eapply writes_bind_ok; eauto.
      * intro Hr2. repeat rewrite <- app_assoc.
        eapply nested_object; eauto.
    + exists (Raise e), o'. split; [|discriminate].
      now apply writes_bind_raise.
Qed.

(** *** Whole runs *)

Lemma runs_at_empty {A} (m : M A) self r0 self0 out0 :
  (exists r self' out, runs m self r self' out) ->
  m (self, []) = (r0, (self0, out0)) ->
  runs m self r0 self0 out0.
Proof.
  intros (r & self' & out & H) H0. pose proof (H []) as H1. simpl in H1.
  rewrite H1 in H0. inversion H0; subst. exact H.
Qed.

Lemma PVLEncoder_encode_writes (module : block) self rb ob :
  writes (encode_block module 0) self rb ob ->
  writes (PVLEncoder_encode module) self rb
         (ob ++ match rb with
                | Ok _ => end_statement (cls self)
                | Raise _ => []
                end).
Proof.
  intro W. unfold PVLEncoder_encode. destruct rb as [[]|e].
  - eapply writes_bind_ok; [exact W|].
    intro s. unfold bind, get_self, write. reflexivity.
  - rewrite app_nil_r. apply writes_bind_raise. exact W.
Qed.

(** [encode], class by class. *)
Lemma encode_unfold (module : block) (self : encoder) (stream : bytes) :
  encode module (self, stream)
  = match cls self with
    | PDSLabelEncoder =>
        match _detect_assignment_col module 0 with
        | Ok col => PVLEncoder_encode module (set_col self col, stream)
        | Raise e => (Raise e, (self, stream))
        end
    | _ => PVLEncoder_encode module (self, stream)
    end.
Proof.
  unfold encode, bind at 1, get_self. simpl.
  destruct (cls self); reflexivity.
Qed.

Lemma encode_runs (module : block) (self : encoder) :
  exists r self' out, runs (encode module) self r self' out.
Proof.
  assert (P : forall self0, exists r out,
               writes (PVLEncoder_encode module) self0 r out).
  { intro self0. destruct (block_writes module 0 self0) as (rb & ob & W & _).
    eexists; eexists. apply PVLEncoder_encode_writes. exact W. }
  destruct (cls self) eqn:C.
  - destruct (P self) as (r & out & W). exists r, self, out.
    intro s. rewrite encode_unfold, C. apply W.
  - destruct (P self) as (r & out & W). exists r, self, out.
    intro s. rewrite encode_unfold, C. apply W.
  - destruct (_detect_assignment_col module 0) as [c|e] eqn:D.
    + destruct (P (set_col self c)) as (r & out & W).
      exists r, (set_col self c), out.
      intro s. rewrite encode_unfold, C, D. apply W.
    + exists (Raise e), self, []. intro s.
      rewrite encode_unfold, C, D. now rewrite app_nil_r.
Qed.

(** ** Booleans *)

(** C1 (as the code has it): [encode_simple_value] tests
    [isinstance(value, (int, float))] before [isinstance(value, bool)], and
    a [bool] is an [int]; so [True] and [False] are rendered by
    [encode_number] as the texts [True] and [False], and the branch of
    [encode_bool], which would give [TRUE] and [FALSE], is never taken. *)
Theorem bool_takes_number_branch (x : bool) :
  encode_simple_value (VBool x) = Ok (if x then b "True" else b "False")
  /\ encode_value (VBool x) = Ok (if x then b "True" else b "False")
  /\ encode_bool (VBool x) = Ok (if x then b "TRUE" else b "FALSE")
  /\ encode_value (VBool x) <> encode_bool (VBool x).
Proof.
  destruct x; repeat split; try reflexivity; discriminate.
Qed.

(** ** Concrete labels *)

(** C3: under the default dialect the mapping with the entry [A = 1] and
    the group [X] holding [B = 2] is written as the five lines
    [A = 1], [BEGIN_GROUP = X], [  B = 2], [END_GROUP = X], [END], the last
    one without a line break; nothing else reaches the stream. *)
Theorem default_dialect_group_example (col : option nat) (stream : bytes) :
  encode [(u "A", VInt 1); (u "X", VGroup [(u "B", VInt 2)])]
         (Encoder PVLEncoder col, stream)
  = (Ok tt,
     (Encoder PVLEncoder col,
      stream ++ b "A = 1" ++ newline
             ++ b "BEGIN_GROUP = X" ++ newline
             ++ b "  B = 2" ++ newline
             ++ b "END_GROUP = X" ++ newline
             ++ b "END")).
Proof.
  revert stream. apply runs_at_empty.
  - apply encode_runs.
  - reflexivity.
Qed.

(** C9: on the empty mapping [PDSLabelEncoder.encode] raises [ValueError]
    (the maximum of no length at all) with the stream and the instance
    untouched, while [PVLEncoder] and [IsisCubeLabelEncoder] succeed and
    write their closing token only, [END] and [End]. *)
Theorem empty_module_per_class (col : option nat) (stream : bytes) :
  encode [] (Encoder PDSLabelEncoder col, stream)
  = (Raise ValueError, (Encoder PDSLabelEncoder col, stream))
  /\ encode [] (Encoder PVLEncoder col, stream)
     = (Ok tt, (Encoder PVLEncoder col, stream ++ b "END"))
  /\ encode [] (Encoder IsisCubeLabelEncoder col, stream)
     = (Ok tt, (Encoder IsisCubeLabelEncoder col, stream ++ b "End")).
Proof. repeat split. Qed.

(** ** The closing line of the Cube dialect *)

(** C7: under [IsisCubeLabelEncoder] the method that closes a group
    writes the indentation of its level, the token [End_Group] and a line
    break, and nothing else: no assignment token, no name.  So a group
    whose opening line and entries were written ends in exactly that
    line. *)
Theorem cube_group_close_line (key : pystr) (level : nat) (col : option nat)
  (stream : bytes) :
  let self := Encoder IsisCubeLabelEncoder col in
  encode_group_end key level (self, stream)
  = (Ok tt, (self, stream ++ indentation_of level ++ b "End_Group" ++ newline))
  /\ forall (items : block) (stream1 : bytes),
      bind (encode_group_begin key level)
           (fun _ => encode_block items (level + 1)) (self, stream)
      = (Ok tt, (self, stream1)) ->
      encode_statement key (VGroup items) level (self, stream)
      = (Ok tt,
         (self, stream1 ++ indentation_of level ++ b "End_Group" ++ newline)).
Proof.
  intro self. split.
  - unfold encode_group_end, bind, get_self, indent, write. simpl.
    repeat rewrite <- app_assoc. reflexivity.
  - intros items stream1 H.
    rewrite encode_statement_group. unfold encode_group.
    unfold bind in *.
    destruct (encode_group_begin key level (self, stream)) as [[[]|e] w1];
      [|discriminate].
    rewrite H.
    unfold encode_group_end, bind, get_self, indent, write. simpl.
    repeat rewrite <- app_assoc. reflexivity.
Qed.

(** ** Opening and closing lines *)

Lemma PVLEncoder_encode_run (module : block) (self : encoder) :
  exists rb ob,
    (rb = Ok tt -> nested self 0 module ob)
    /\ forall stream,
        PVLEncoder_encode module (self, stream)
        = (rb, (self, stream ++ ob ++ match rb with
                                      | Ok _ => end_statement (cls self)
                                      | Raise _ => []
                                      end)).
Proof.
  destruct (block_writes module 0 self) as (rb & ob & W & N).
  exists rb, ob. split; [exact N|].
  exact (PVLEncoder_encode_writes module self rb ob W).
Qed.


(** ** What [encode] leaves on the instance *)

(** C6 (as the code has it): [encode] never changes the class of the
    instance; [PVLEncoder] and [IsisCubeLabelEncoder] leave the instance
    as it was; [PDSLabelEncoder.encode] assigns the column it has computed
    to the attribute [assignment_col] of the instance, replacing what was
    there, unless the computation of the column raises; and the lines are
    built from the column read on the instance, so that without it
    [encode_raw_assignment] raises [AttributeError]. *)
Theorem encode_instance_effect (module : block) (self : encoder)
  (stream : bytes) :
  fst (snd (encode module (self, stream)))
  = match cls self with
    | PDSLabelEncoder =>
        match _detect_assignment_col module 0 with
        | Ok col => set_col self col
        | Raise _ => self
        end
    | _ => self
    end
  /\ (forall key value level col s,
         encode_raw_assignment key value level
                               (Encoder PDSLabelEncoder (Some col), s)
         = (Ok tt,
            (Encoder PDSLabelEncoder (Some col),
             s ++ ljust (indentation_of level ++ key) col
               ++ assignment ++ value ++ newline)))
  /\ (forall key value level s,
         encode_raw_assignment key value level (Encoder PDSLabelEncoder None, s)
         = (Raise (AttributeError (u "assignment_col")),
            (Encoder PDSLabelEncoder None, s))).
Proof.
  split; [|split].
  - rewrite encode_unfold.
    assert (G : forall self0,
               fst (snd (PVLEncoder_encode module (self0, stream))) = self0).
    { intro self0.
      destruct (PVLEncoder_encode_run module self0) as (rb & ob & _ & R).
      now rewrite R. }
    destruct (cls self); try apply G.
    destruct (_detect_assignment_col module 0); [apply G | reflexivity].
  - intros key value level col s.
    apply (raw_assignment_writes key value level
             (Encoder PDSLabelEncoder (Some col))).
  - intros key value level s.
    rewrite (raw_assignment_writes key value level
               (Encoder PDSLabelEncoder None)).
    simpl. now rewrite app_nil_r.
Qed.

(** ** The column of [PDSLabelEncoder] *)

Lemma key_length_each (indent : nat) (items : block) :
  (fix each (blk : block) : result (list nat) :=
     match blk with
     | [] => Ok []
     | (k, v) :: rest =>
         rbind (_key_length k v indent)
               (fun x => rbind (each rest) (fun xs => Ok (x :: xs)))
     end) items
  = collect (fun kv => _key_length (fst kv) (snd kv) indent) items.
Proof.
  induction items as [|[k v] items IH]; simpl; [reflexivity|].
  now rewrite IH.
Qed.

Lemma key_length_mapping (key : pystr) (value : pyvalue) (items : block)
  (indent : nat) :
  value = VDict items \/ value = VGroup items ->
  _key_length key value indent
  = rbind (_detect_assignment_col items (indent + List.length indentation))
          (fun col => Ok (Nat.max (indent + len key) col)).
Proof.
  intros [E|E]; subst; simpl; rewrite key_length_each;
    unfold _detect_assignment_col;
    destruct (collect _ items) as [ls|e]; reflexivity.
Qed.

Lemma fold_left_max (rest : list nat) (x : nat) :
  fold_left Nat.max rest x = Nat.max x (list_max rest).
Proof.
  revert x. induction rest as [|y rest IH]; intro x; simpl.
  - lia.
  - rewrite IH. lia.
Qed.

Lemma max_of_list_max (xs : list nat) :
  max_of xs = if is_empty xs then Raise ValueError else Ok (list_max xs).
Proof.
  destruct xs as [|x rest]; simpl; [reflexivity|].
  now rewrite fold_left_max.
Qed.

Lemma collect_all_or_ValueError {A} (f : A -> result nat) (g : A -> nat)
  (p : A -> bool) (items : list A) :
  Forall (fun x => f x = if p x then Ok (g x) else Raise ValueError) items ->
  collect f items
  = if forallb p items then Ok (List.map g items) else Raise ValueError.
Proof.
  induction 1 as [|x items Hx _ IH]; simpl; [reflexivity|].
  rewrite Hx, IH. destruct (p x); simpl; [|reflexivity].
  destruct (forallb p items); reflexivity.
Qed.

Lemma list_max_flat_map {A} (h : A -> list nat) (items : list A) :
  list_max (List.map (fun x => list_max (h x)) items)
  = list_max (flat_map h items).
Proof.
  induction items as [|x items IH]; simpl; [reflexivity|].
  rewrite list_max_app. simpl in IH. now rewrite IH.
Qed.

Lemma detect_from_entries (d : nat) (items : block) :
  Forall (fun kv =>
            _key_length (fst kv) (snd kv) (d * List.length indentation)
            = if populated (snd kv)
              then Ok (list_max (entry_candidates d (fst kv) (snd kv)))
              else Raise ValueError) items ->
  _detect_assignment_col items (d * List.length indentation)
  = if negb (is_empty items) && forallb (fun kv => populated (snd kv)) items
    then Ok (list_max (candidates d items))
    else Raise ValueError.
Proof.
  intro H. unfold _detect_assignment_col.
  rewrite (collect_all_or_ValueError _
             (fun kv => list_max (entry_candidates d (fst kv) (snd kv)))
             (fun kv => populated (snd kv)) items H).
  destruct (forallb _ items); simpl.
  - rewrite max_of_list_max. destruct items; simpl; [reflexivity|].
    f_equal. apply (list_max_flat_map
                      (fun kv => entry_candidates d (fst kv) (snd kv))
                      (p :: items)).
  - now rewrite andb_false_r.
Qed.

Lemma key_length_candidates :
  forall (value : pyvalue) (key : pystr) (d : nat),
    _key_length key value (d * List.length indentation)
    = if populated value
      then Ok (list_max (entry_candidates d key value))
      else Raise ValueError.
Proof.
  assert (M : forall items,
             Forall (fun kv =>
                       forall key d,
                         _key_length key (snd kv) (d * List.length indentation)
                         = if populated (snd kv)
                           then Ok (list_max (entry_candidates d key (snd kv)))
                           else Raise ValueError) items ->
             forall value key d,
               value = VDict items \/ value = VGroup items ->
               _key_length key value (d * List.length indentation)
               = if populated value
                 then Ok (list_max (entry_candidates d key value))
                 else Raise ValueError).
  { intros items H value key d E.
    rewrite (key_length_mapping key value items _ E).
    replace (d * List.length indentation + List.length indentation)
      with (S d * List.length indentation) by (simpl; lia).
    rewrite detect_from_entries.
    2:{ eapply Forall_impl; [|exact H]. intros kv Hkv. apply Hkv. }
    destruct E as [E|E]; subst value; cbn [populated entry_candidates];
      destruct (negb (is_empty items)
                && forallb (fun kv => populated (snd kv)) items);
      reflexivity. }
  intro value. induction value using pyvalue_nested_ind; intros key d;
    try (simpl; now rewrite Nat.max_0_r).
  - apply (M items H). now left.
  - apply (M items H). now right.
Qed.

Lemma detect_candidates (d : nat) (blk : block) :
  _detect_assignment_col blk (d * List.length indentation)
  = if populated_block blk
    then Ok (list_max (candidates d blk))
    else Raise ValueError.
Proof.
  apply detect_from_entries. apply Forall_forall. intros kv _.
  apply key_length_candidates.
Qed.

Lemma indentation_of_length (level : nat) :
  List.length (indentation_of level) = level * List.length indentation.
Proof.
  unfold indentation_of. induction level as [|level IH]; simpl; [reflexivity|].
  rewrite IH. reflexivity.
Qed.

Lemma entry_in_candidates (d : nat) (key : pystr) (value : pyvalue)
  (blk : block) :
  In (key, value) blk ->
  incl (entry_candidates d key value) (candidates d blk).
Proof.
  intros H x Hx. unfold candidates. apply in_flat_map.
  exists (key, value). auto.
Qed.

Lemma entry_at_candidate (d : nat) (key : pystr) (blk : block) :
  entry_at d key blk ->
  forall d0,
    In ((d0 + d) * List.length indentation + len key) (candidates d0 blk).
Proof.
  induction 1 as [key value blk H|d key name items blk H _ IH
                 |d key name items blk H _ IH]; intro d0.
  - apply (entry_in_candidates d0 key value blk H).
    rewrite Nat.add_0_r. destruct value; simpl; auto.
  - apply (entry_in_candidates d0 name (VDict items) blk H).
    cbn [entry_candidates]. right.
    replace (d0 + S d) with (S d0 + d) by lia. apply IH.
  - apply (entry_in_candidates d0 name (VGroup items) blk H).
    cbn [entry_candidates]. right.
    replace (d0 + S d) with (S d0 + d) by lia. apply IH.
Qed.

Lemma in_list_max (x : nat) (xs : list nat) : In x xs -> x <= list_max xs.
Proof.
  intro H. assert (F : Forall (fun k => k <= list_max xs) xs)
    by (apply list_max_le; lia).
  rewrite Forall_forall in F. auto.
Qed.

Lemma ljust_length (x : bytes) (width : nat) :
  List.length (ljust x width) = Nat.max (List.length x) width.
Proof.
  unfold ljust. rewrite length_app, repeat_length. lia.
Qed.

Lemma encode_block_keeps_instance (blk : block) (level : nat)
  (self : encoder) (stream : bytes) :
  fst (snd (encode_block blk level (self, stream))) = self.
Proof.
  destruct (block_writes blk level self) as (r & out & W & _).
  now rewrite W.
Qed.

(** ** A value of an unrecognized class *)

Lemma encode_block_app (before rest : block) (level : nat) (w : world) :
  encode_block (before ++ rest) level w
  = bind (encode_block before level) (fun _ => encode_block rest level) w.
Proof.
  revert w. induction before as [|[k v] before IH]; intro w; simpl.
  - reflexivity.
  - unfold bind.
    destruct (encode_statement k v level w) as [[[]|e] w1]; [|reflexivity].
    rewrite IH. reflexivity.
Qed.

(** The entry itself: nothing is written, the exception is [TypeError]
    with the [repr] of the value. *)
Lemma unsupported_assignment (key : pystr) (name : bytes) (r : pystr)
  (rest : block) (level : nat) (w : world) :
  utf8 key = Ok name ->
  encode_block ((key, VOther r) :: rest) level w
  = (Raise (TypeError (repr (VOther r) ++ u " is not serializable")), w).
Proof.
  intro Hk. rewrite encode_block_cons.
  unfold bind. simpl. unfold encode_assignment, bind, lift. rewrite Hk.
  reflexivity.
Qed.

Lemma unsupported_below (p : path) (r : pystr) (name : bytes) :
  utf8 (path_key p) = Ok name ->
  forall (level : nat) (w w1 : world),
    encode_before p level w = (Ok tt, w1) ->
    encode_block (plug p (VOther r)) level w
    = (Raise (TypeError (repr (VOther r) ++ u " is not serializable")), w1).
Proof.
  intro Hk.
  induction p as [before key after|before key is_group inner IH after];
    intros level w w1 H; simpl in *.
  - rewrite encode_block_app. unfold bind. rewrite H.
    apply (unsupported_assignment key name r after level w1 Hk).
  - rewrite encode_block_app. unfold bind in *.
    destruct (encode_block before level w) as [[[]|e] w2]; [|discriminate].
    rewrite encode_block_cons. unfold bind.
    destruct is_group; simpl mapping.
    + rewrite encode_statement_group. unfold encode_group, bind.
      destruct (encode_group_begin key level w2) as [[[]|e] w3];
        [|discriminate].
      now rewrite (IH Hk (level + 1) w3 w1 H).
    + rewrite encode_statement_object. unfold encode_object, bind.
      destruct (encode_object_begin key level w2) as [[[]|e] w3];
        [|discriminate].
      now rewrite (IH Hk (level + 1) w3 w1 H).
Qed.

(** [encode] is its prelude followed by the inherited method. *)
Lemma encode_prelude_then_traversal (module : block) (w : world) :
  encode module w
  = bind (encode_prelude module) (fun _ => PVLEncoder_encode module) w.
Proof.
  destruct w as [self stream].
  unfold encode, encode_prelude, PDSLabelEncoder_encode, bind, get_self.
  simpl. destruct (cls self); try reflexivity.
  unfold lift. destruct (_detect_assignment_col module 0); reflexivity.
Qed.

(** C4: take a tree with an entry whose value is of no recognized class,
    and let everything [encode] does before it comes to that entry go
    well and leave [stream1] in the stream.  Then [encode] raises
    [TypeError] with the [repr] of that value in its message, and the
    stream holds [stream1] and nothing more: what was written for the
    entries before is there, nothing is written for the entry itself nor
    for any entry after it. *)
Theorem unsupported_value_aborts (p : path) (r : pystr) (name : bytes)
  (self self1 : encoder) (stream stream1 : bytes) :
  utf8 (path_key p) = Ok name ->
  bind (encode_prelude (plug p (VOther r))) (fun _ => encode_before p 0)
       (self, stream)
  = (Ok tt, (self1, stream1)) ->
  encode (plug p (VOther r)) (self, stream)
  = (Raise (TypeError (repr (VOther r) ++ u " is not serializable")),
     (self1, stream1)).
Proof.
  intros Hk H. rewrite encode_prelude_then_traversal.
  unfold bind in *.
  destruct (encode_prelude (plug p (VOther r)) (self, stream))
    as [[[]|e] w0]; [|discriminate].
  unfold PVLEncoder_encode, bind.
  now rewrite (unsupported_below p r name Hk 0 w0 (self1, stream1) H).
Qed.

(** ** The equations of the value methods *)

Lemma encode_simple_value_list (elements : list pyvalue) :
  encode_simple_value (VList elements) = encode_list elements.
Proof.
  unfold encode_list, encode_sequence. simpl.
  match goal with
  | |- rbind (?f elements) _ = _ =>
      assert (E : forall l, f l = collect encode_value l)
  end.
  { induction l as [|v l IH]; [reflexivity|].
    simpl. rewrite IH. reflexivity. }
  rewrite E. destruct (collect encode_value elements); reflexivity.
Qed.

Lemma encode_simple_value_set (members : list pyvalue) :
  encode_simple_value (VSet members) = encode_set members.
Proof.
  unfold encode_set. simpl.
  match goal with
  | |- rbind (all_ok (set_iter _ (?f members))) _ = _ =>
      assert (E : forall l, f l = List.map encode_value l)
  end.
  { induction l as [|v l IH]; [reflexivity|].
    simpl. rewrite IH. reflexivity. }
  rewrite E. reflexivity.
Qed.

Lemma wrapped_writes_text (items : block) level self key otoken ctoken
      (begin_ end_ : M unit) r out :
  writes begin_ self (done (opening self level otoken key))
         (text_of (opening self level otoken key)) ->
  writes end_ self (done (closing self level ctoken key))
         (text_of (closing self level ctoken key)) ->
  writes (encode_block items (level + 1)) self r out ->
  writes (bind begin_ (fun _ => bind (encode_block items (level + 1))
                                     (fun _ => end_))) self
         (wrapped_result (opening self level otoken key) r
                         (closing self level ctoken key))
         (wrapped_text (opening self level otoken key) r out
                       (closing self level ctoken key)).
Proof.
  intros Hb He Hi.
  destruct (opening self level otoken key) as [first|e]; simpl in *.
  - destruct r as [[]|e]; simpl.
    + eapply writes_bind_ok; [exact Hb|].
      eapply writes_bind_ok; [exact Hi|exact He].
    + eapply writes_bind_ok; [exact Hb|].
      apply writes_bind_raise. exact Hi.
  - apply writes_bind_raise. exact Hb.
Qed.

End Facts.

(** ** Two runs on one tree *)

Lemma raw_line_alike self1 self2 level key value :
  alike self1 self2 ->
  raw_line self1 level key value = raw_line self2 level key value.
Proof.
  intros [C A]. unfold raw_line. rewrite <- C.
  destruct (cls self1); try reflexivity. now rewrite (A eq_refl).
Qed.

Lemma opening_alike self1 self2 level token key :
  alike self1 self2 ->
  opening self1 level token key = opening self2 level token key.
Proof.
  intro H. unfold opening. destruct (utf8 key); simpl; [|reflexivity].
  now apply raw_line_alike.
Qed.

Lemma closing_alike self1 self2 level token key :
  alike self1 self2 ->
  closing self1 level token key = closing self2 level token key.
Proof.
  intro H. unfold closing. pose proof H as [C _]. rewrite <- C.
  destruct (cls self1); try reflexivity;
    (destruct (utf8 key); simpl; [|reflexivity];
     apply raw_line_alike; exact H).
Qed.

Lemma collect_ext {A B} (f g : A -> result B) (xs : list A) :
  Forall (fun x => f x = g x) xs -> collect f xs = collect g xs.
Proof.
  induction 1 as [|x xs Hx _ IH]; simpl; [reflexivity|].
  now rewrite Hx, IH.
Qed.

Section Determinism.

Context {quoting : Quoting}.

Variable repr_of : pyvalue -> pystr.
Variable iter1 iter2 : forall A : Type, list A -> list A.

(** Two hosts that differ at most in the order of their sets. *)
Local Abbreviation host1 := (Build_Host repr_of iter1).
Local Abbreviation host2 := (Build_Host repr_of iter2).

Lemma encode_value_any_order :
  forall value : pyvalue,
    no_set value = true ->
    encode_simple_value (host := host1) value
    = encode_simple_value (host := host2) value
    /\ encode_value (host := host1) value = encode_value (host := host2) value.
Proof.
  intro value.
  induction value as [s|z|t|x| |elements IH|members IH|inner units IH
                     |items IH|items IH|r] using pyvalue_nested_ind;
    intro N; try (split; reflexivity); try discriminate.
  - assert (E : encode_simple_value (host := host1) (VList elements)
                = encode_simple_value (host := host2) (VList elements)).
    { rewrite !encode_simple_value_list. unfold encode_list, encode_sequence.
      rewrite (collect_ext (encode_value (host := host1))
                           (encode_value (host := host2)) elements);
        [reflexivity|].
      simpl in N. rewrite forallb_forall in N.
      rewrite Forall_forall in *. intros v Hv. now apply IH; auto. }
    split; exact E.
  - simpl in N. destruct (IH N) as [E _]. split; [reflexivity|].
    unfold encode_value. now rewrite E.
Qed.

Lemma assignment_line_alike self1 self2 level key value :
  alike self1 self2 ->
  no_set value = true ->
  assignment_line (host := host1) self1 level key value
  = assignment_line (host := host2) self2 level key value.
Proof.
  intros H N. unfold assignment_line.
  destruct (encode_value_any_order value N) as [_ E]. rewrite E.
  destruct (utf8 key); simpl; [|reflexivity].
  destruct (encode_value (host := host2) value); simpl; [|reflexivity].
  now apply raw_line_alike.
Qed.

Lemma block_writes_alike (blk : block) :
  no_set_block blk = true ->
  forall level self1 self2,
    alike self1 self2 ->
    exists r out,
      writes (encode_block (host := host1) blk level) self1 r out
      /\ writes (encode_block (host := host2) blk level) self2 r out.
Proof.
  induction blk as [|key value rest Hv IHrest|key items rest IHitems IHrest
                   |key items rest IHitems IHrest] using block_nested_ind;
    intros N level self1 self2 Al.
  - exists (Ok tt), []. split; apply writes_ret.
  - simpl in N. apply andb_prop in N. destruct N as [Nv Nr].
    destruct (IHrest Nr level self1 self2 Al) as (r2 & o2 & W1 & W2).
    rewrite !encode_block_cons, !encode_statement_assignment by exact Hv.
    pose proof (assignment_writes (host := host1) key value level self1) as A1.
    pose proof (assignment_writes (host := host2) key value level self2) as A2.
    rewrite (assignment_line_alike self1 self2 level key value Al Nv) in A1.
    destruct (assignment_line (host := host2) self2 level key value)
      as [line|e]; simpl in A1, A2.
    + exists r2, (line ++ o2). split; eapply writes_bind_ok; eauto.
    + exists (Raise e), []. split; now apply writes_bind_raise.
  - simpl in N. apply andb_prop in N. destruct N as [Ni Nr].
    destruct (IHitems Ni (level + 1) self1 self2 Al) as (ri & oi & I1 & I2).
    destruct (IHrest Nr level self1 self2 Al) as (r2 & o2 & W1 & W2).
    rewrite !encode_block_cons, !encode_statement_group. unfold encode_group.
    pose proof (wrapped_writes_text (host := host1) items level self1 key _ _
                  _ _ ri oi (group_begin_writes key level self1)
                  (group_end_writes key level self1) I1) as G1.
    pose proof (wrapped_writes_text (host := host2) items level self2 key _ _
                  _ _ ri oi (group_begin_writes key level self2)
                  (group_end_writes key level self2) I2) as G2.
    destruct Al as [C A]. rewrite <- C in G2.
    rewrite <- (opening_alike self1 self2 level _ key (conj C A)) in G2.
    rewrite <- (closing_alike self1 self2 level _ key (conj C A)) in G2.
    destruct (wrapped_result _ ri _) as [[]|e].
    + eexists; eexists. split; eapply writes_bind_ok; eauto.
    + eexists; eexists. split; apply writes_bind_raise; eauto.
  - simpl in N. apply andb_prop in N. destruct N as [Ni Nr].
    destruct (IHitems Ni (level + 1) self1 self2 Al) as (ri & oi & I1 & I2).
    destruct (IHrest Nr level self1 self2 Al) as (r2 & o2 & W1 & W2).
    rewrite !encode_block_cons, !encode_statement_object. unfold encode_object.
    pose proof (wrapped_writes_text (host := host1) items level self1 key _ _
                  _ _ ri oi (object_begin_writes key level self1)
                  (object_end_writes key level self1) I1) as G1.
    pose proof (wrapped_writes_text (host := host2) items level self2 key _ _
                  _ _ ri oi (object_begin_writes key level self2)
                  (object_end_writes key level self2) I2) as G2.
    destruct Al as [C A]. rewrite <- C in G2.
    rewrite <- (opening_alike self1 self2 level _ key (conj C A)) in G2.
    rewrite <- (closing_alike self1 self2 level _ key (conj C A)) in G2.
    destruct (wrapped_result _ ri _) as [[]|e].
    + eexists; eexists. split; eapply writes_bind_ok; eauto.
    + eexists; eexists. split; apply writes_bind_raise; eauto.
Qed.

Lemma PVLEncoder_encode_alike (module : block) (self1 self2 : encoder) :
  no_set_block module = true ->
  alike self1 self2 ->
  exists r out,
    writes (PVLEncoder_encode (host := host1) module) self1 r out
    /\ writes (PVLEncoder_encode (host := host2) module) self2 r out.
Proof.
  intros N Al.
  destruct (block_writes_alike module N 0 self1 self2 Al) as (r & o & W1 & W2).
  apply (PVLEncoder_encode_writes (host := host1)) in W1.
  apply (PVLEncoder_encode_writes (host := host2)) in W2.
  destruct Al as [C _]. rewrite <- C in W2. eauto.
Qed.

(** C10: take a tree with no set in it and two calls of [encode] on it
    by encoders of one class, with the same quoting collaborator.  Whatever
    the two streams held, whatever column an earlier call left on either
    instance and in whatever order the host of either call yields the
    members of sets, the two calls end alike (both return, or both raise
    the same exception) and append the same bytes to their streams. *)
Theorem encode_deterministic_without_sets (c : encoder_class)
  (col1 col2 : option nat) (module : block) (stream1 stream2 : bytes) :
  no_set_block module = true ->
  exists r out col1' col2',
    encode (host := host1) module (Encoder c col1, stream1)
    = (r, (Encoder c col1', stream1 ++ out))
    /\ encode (host := host2) module (Encoder c col2, stream2)
       = (r, (Encoder c col2', stream2 ++ out)).
Proof.
  intro N. rewrite !encode_unfold. simpl cls.
  assert (P : forall self1 self2,
             alike self1 self2 -> cls self1 = c ->
             exists r out col1' col2',
               PVLEncoder_encode (host := host1) module (self1, stream1)
               = (r, (Encoder c col1', stream1 ++ out))
               /\ PVLEncoder_encode (host := host2) module (self2, stream2)
                  = (r, (Encoder c col2', stream2 ++ out))).
  { intros self1 self2 Al C.
    destruct (PVLEncoder_encode_alike module self1 self2 N Al)
      as (r & out & W1 & W2).
    exists r, out, (assignment_col self1), (assignment_col self2).
    rewrite W1, W2. destruct Al as [C2 _]. rewrite C2 in C.
    destruct self1 as [c1 a1], self2 as [c2 a2]. simpl in *. subst.
    split; reflexivity. }
  destruct c.
  - apply P; [split; [reflexivity | discriminate] | reflexivity].
  - apply P; [split; [reflexivity | discriminate] | reflexivity].
  - destruct (_detect_assignment_col module 0) as [col|e].
    + apply P; [split; reflexivity | reflexivity].
    + exists (Raise e), [], col1, col2. rewrite !app_nil_r.
      split; reflexivity.
Qed.

End Determinism.

(** ** The validation driver *)

Section ValidateFacts.

Context {quoting : Quoting} {host : Host} {library : Library}.

(** A load that the decoder refuses is reported as [(False, None)]. *)
Lemma pvl_flavor_load_refused (txt : text) (k : profile) (st : instances)
  (e : exn) :
  loads txt k = Raise e -> caught_on_load e = true ->
  pvl_flavor txt k st = (Ok (Some false, None), st).
Proof.
  intros L C. unfold pvl_flavor. now rewrite L, C.
Qed.

(** An exception of the encoder that the clause of [pvl_flavor] takes,
    [ValueError] among them, is reported as [(True, False)]. *)
Lemma pvl_flavor_encode_refused (txt : text) (k : profile) (st : instances)
  (some_pvl : block) (e : exn) (self : encoder) (out : bytes) :
  loads txt k = Ok some_pvl ->
  encode some_pvl (st k, []) = (Raise e, (self, out)) ->
  caught_on_encode e = true ->
  pvl_flavor txt k st = (Ok (Some true, Some false), update st k self).
Proof.
  intros L E C. unfold pvl_flavor, dumps. now rewrite L, E, C.
Qed.

(** The encoder on a one-entry tree whose value is of no recognized
    class. *)
Lemma encode_single_unsupported (key r : pystr) (name : bytes)
  (self : encoder) :
  utf8 key = Ok name ->
  exists self',
    encode [(key, VOther r)] (self, [])
    = (Raise (TypeError (r ++ u " is not serializable")), (self', [])).
Proof.
  intro Hk.
  assert (B : forall w,
             PVLEncoder_encode [(key, VOther r)] w
             = (Raise (TypeError (r ++ u " is not serializable")), w)).
  { intro w. unfold PVLEncoder_encode, bind.
    now rewrite (unsupported_assignment key name r [] 0 w Hk). }
  rewrite encode_unfold. destruct (cls self).
  - exists self. apply B.
  - exists self. apply B.
  - simpl. eexists. apply B.
Qed.

(** C5 (as the code has it): [pvl_flavor] takes [LexerError],
    [ParseError] and [ValueError] from the encoding step, but the encoder
    raises [TypeError] on a value of no recognized class.  So when the
    text of the first file loads, under the first profile, to a tree with
    such a value, [TypeError] leaves [pvl_flavor] and [main]: no pair is
    recorded for that profile, and no other profile nor file is looked
    at. *)
Theorem uncaught_TypeError_aborts_main (f : pystr) (rest : list pystr)
  (txt : text) (key r : pystr) (name : bytes) :
  get_text_from f = Ok txt ->
  loads txt PDS3 = Ok [(key, VOther r)] ->
  utf8 key = Ok name ->
  fst (pvl_flavor txt PDS3 dialects)
  = Raise (TypeError (r ++ u " is not serializable"))
  /\ fst (main (f :: rest) dialects)
     = Raise (TypeError (r ++ u " is not serializable")).
Proof.
  intros G L Hk.
  destruct (encode_single_unsupported key r name (dialects PDS3) Hk)
    as (self' & E).
  assert (F : pvl_flavor txt PDS3 dialects
              = (Raise (TypeError (r ++ u " is not serializable")),
                 update dialects PDS3 self')).
  { unfold pvl_flavor, dumps. rewrite L, E. reflexivity. }
  split.
  - now rewrite F.
  - simpl. rewrite G. simpl. rewrite F. reflexivity.
Qed.

End ValidateFacts.

(** ** Concrete runs *)

(** The order of a set shows in the text, so two hosts may differ on a
    tree that holds one. *)
Example set_order_shows :
  encode (quoting := plain_quoting) (host := listing_host)
         [(u "S", VSet [VInt 1; VInt 2])] (Encoder PVLEncoder None, [])
  = (Ok tt, (Encoder PVLEncoder None, b "S = {1, 2}" ++ newline ++ b "END"))
  /\ encode (quoting := plain_quoting) (host := reversing_host)
            [(u "S", VSet [VInt 1; VInt 2])] (Encoder PVLEncoder None, [])
     = (Ok tt, (Encoder PVLEncoder None, b "S = {2, 1}" ++ newline ++ b "END")).
Proof. split; reflexivity. Qed.

Lemma cube_group_close_line_witness :
  bind (encode_group_begin (u "X") 0)
       (fun _ => encode_block (quoting := plain_quoting) (host := listing_host)
                              [(u "B", VInt 2)] (0 + 1))
       (Encoder IsisCubeLabelEncoder None, [])
  = (Ok tt,
     (Encoder IsisCubeLabelEncoder None,
      b "Group = X" ++ newline ++ b "  B = 2" ++ newline))
  /\ encode_statement (quoting := plain_quoting) (host := listing_host)
                      (u "X") (VGroup [(u "B", VInt 2)]) 0
                      (Encoder IsisCubeLabelEncoder None, [])
     = (Ok tt,
        (Encoder IsisCubeLabelEncoder None,
         (b "Group = X" ++ newline ++ b "  B = 2" ++ newline)
           ++ indentation_of 0 ++ b "End_Group" ++ newline)).
Proof.
  split; [reflexivity|].
  apply (proj2 (cube_group_close_line (quoting := plain_quoting)
                  (host := listing_host) (u "X") 0 None [])).
  reflexivity.
Defined.


Lemma unsupported_value_aborts_witness :
  utf8 (path_key path_to_C) = Ok (b "C")
  /\ bind (encode_prelude (plug path_to_C (VOther a_date)))
          (fun _ => encode_before (quoting := plain_quoting)
                                  (host := listing_host) path_to_C 0)
          (Encoder PDSLabelEncoder None, [])
     = (Ok tt,
        (Encoder PDSLabelEncoder (Some 3),
         b "A   = 1" ++ newline ++ b "GROUP = G" ++ newline
           ++ b "  B = 2" ++ newline))
  /\ sample_encode (plug path_to_C (VOther a_date))
                   (Encoder PDSLabelEncoder None, [])
     = (Raise (TypeError (a_date ++ u " is not serializable")),
        (Encoder PDSLabelEncoder (Some 3),
         b "A   = 1" ++ newline ++ b "GROUP = G" ++ newline
           ++ b "  B = 2" ++ newline)).
Proof.
  split; [reflexivity|]. split; [reflexivity|].
  apply (unsupported_value_aborts (quoting := plain_quoting)
           (host := listing_host) path_to_C a_date (b "C")); reflexivity.
Defined.

Lemma encode_deterministic_without_sets_witness :
  no_set_block label_with_group = true
  /\ exists r out col1' col2',
      encode (quoting := plain_quoting) (host := listing_host)
             label_with_group (Encoder PDSLabelEncoder None, [])
      = (r, (Encoder PDSLabelEncoder col1', [] ++ out))
      /\ encode (quoting := plain_quoting) (host := reversing_host)
                label_with_group (Encoder PDSLabelEncoder (Some 40), b "x")
         = (r, (Encoder PDSLabelEncoder col2', b "x" ++ out)).
Proof.
  split; [reflexivity|].
  apply (encode_deterministic_without_sets (quoting := plain_quoting)
           repr_class (fun A xs => xs) (fun A xs => rev xs)
           PDSLabelEncoder None (Some 40) label_with_group [] (b "x")).
  reflexivity.
Defined.

Lemma uncaught_TypeError_aborts_main_witness :
  get_text_from (Library := dated_library) (u "a.lbl") = Ok tt
  /\ loads (Library := dated_library) tt PDS3
     = Ok [(u "START_TIME", VOther a_date)]
  /\ utf8 (u "START_TIME") = Ok (b "START_TIME")
  /\ fst (pvl_flavor (quoting := plain_quoting) (host := listing_host)
                     (library := dated_library) tt PDS3
                     (dialects (library := dated_library)))
     = Raise (TypeError (a_date ++ u " is not serializable"))
  /\ fst (main (quoting := plain_quoting) (host := listing_host)
               (library := dated_library) [u "a.lbl"; u "b.lbl"]
               (dialects (library := dated_library)))
     = Raise (TypeError (a_date ++ u " is not serializable")).
Proof.
  split; [reflexivity|]. split; [reflexivity|]. split; [reflexivity|].
  apply (uncaught_TypeError_aborts_main (quoting := plain_quoting)
           (host := listing_host) (library := dated_library)
           (u "a.lbl") [u "b.lbl"] tt (u "START_TIME") a_date
           (b "START_TIME")); reflexivity.
Defined.

(** C6, the claim as the specification words it, fails: after
    [PDSLabelEncoder.encode] on the mapping [A = 1] the instance holds the
    column 1, which it did not hold before. *)
Lemma pds_encode_stores_column :
  fst (snd (sample_encode [(u "A", VInt 1)] (Encoder PDSLabelEncoder None, [])))
  = Encoder PDSLabelEncoder (Some 1)
  /\ fst (snd (sample_encode [(u "A", VInt 1)]
                             (Encoder PDSLabelEncoder None, [])))
     <> Encoder PDSLabelEncoder None.
Proof. split; [reflexivity | discriminate]. Qed.

(** * More on the encoder *)

Lemma utf8_raises (s : pystr) (e : exn) :
  utf8 s = Raise e -> e = UnicodeEncodeError.
Proof.
  induction s as [|c s IH]; simpl; [discriminate|].
  assert (P : forall e', utf8_point c = Raise e' -> e' = UnicodeEncodeError).
  { unfold utf8_point. intro e'.
    repeat match goal with
           | |- (if ?x then _ else _) = _ -> _ => destruct x
           end; intro H; inversion H; reflexivity. }
  destruct (utf8_point c) as [x|e1]; simpl.
  - destruct (utf8 s) as [xs|e2]; simpl; [discriminate|].
    intro H. inversion H; subst. now apply IH.
  - intro H. inversion H; subst. now apply P.
Qed.

Lemma collect_raises {A B} (f : A -> result B) (xs : list A) (e : exn) :
  collect f xs = Raise e -> exists x, In x xs /\ f x = Raise e.
Proof.
  induction xs as [|x xs IH]; simpl; [discriminate|].
  destruct (f x) as [y|e1] eqn:E; simpl.
  - destruct (collect f xs) as [ys|e2]; simpl; [discriminate|].
    intro H. inversion H; subst. destruct (IH eq_refl) as (x' & Hi & Hx).
    exists x'. auto.
  - intro H. inversion H; subst. exists x. auto.
Qed.

Lemma all_ok_raises {A} (rs : list (result A)) (e : exn) :
  all_ok rs = Raise e -> In (Raise e) rs.
Proof.
  induction rs as [|r rs IH]; simpl; [discriminate|].
  destruct r as [y|e1]; simpl.
  - destruct (all_ok rs) as [ys|e2]; simpl; [discriminate|].
    intro H. inversion H; subst. right. now apply IH.
  - intro H. inversion H; subst. now left.
Qed.

Lemma raw_line_ready (self : encoder) (level : nat) (key value : bytes) :
  ready self -> exists line, raw_line self level key value = Ok line.
Proof.
  intro R. unfold raw_line. destruct (cls self) eqn:C; eauto.
  destruct (assignment_col self) eqn:A; eauto.
  exfalso. now apply (R C).
Qed.

Lemma opening_ready (self : encoder) (level : nat) (token : bytes)
  (key : pystr) :
  ready self -> done (opening self level token key) = done (utf8 key).
Proof.
  intro R. unfold opening. destruct (utf8 key) as [name|e]; simpl; auto.
  destruct (raw_line_ready self level token name R) as (line & L).
  now rewrite L.
Qed.

Lemma closing_ready (self : encoder) (level : nat) (token : bytes)
  (key : pystr) (name : bytes) :
  ready self -> utf8 key = Ok name ->
  done (closing self level token key) = Ok tt.
Proof.
  intros R K. unfold closing. rewrite K. simpl.
  destruct (raw_line_ready self level token name R) as (line & L).
  rewrite L. destruct (cls self); reflexivity.
Qed.

Section Outcomes.

Context {quoting : Quoting} {host : Host}.

(** How a block ends, for any property the failures of the values have. *)
Lemma block_outcome (P : exn -> Prop) :
  P UnicodeEncodeError ->
  (forall value e, encode_value value = Raise e -> P e) ->
  forall (blk : block) (level : nat) (self : encoder),
    ready self ->
    exists r out,
      writes (encode_block blk level) self r out
      /\ (r = Ok tt <-> encodable_block blk = true)
      /\ (forall e, r = Raise e -> P e).
Proof.
  intros PU PV blk.
  induction blk as [|key value rest Hv IHrest|key items rest IHitems IHrest
                   |key items rest IHitems IHrest] using block_nested_ind;
    intros level self R.
  - exists (Ok tt), []. split; [apply writes_ret|].
    split; [split; reflexivity | discriminate].
  - rewrite encode_block_cons, encode_statement_assignment by exact Hv.
    destruct (IHrest level self R) as (r2 & o2 & W2 & S2 & E2).
    pose proof (assignment_writes key value level self) as W1.
    assert (Enc : encodable_block ((key, value) :: rest)
                  = is_ok (utf8 key) && is_ok (encode_value value)
                    && encodable_block rest).
    { unfold encodable_block. simpl. destruct value; try reflexivity;
        discriminate. }
    unfold assignment_line in W1.
    destruct (utf8 key) as [name|e1] eqn:K; simpl in W1.
    + destruct (encode_value value) as [text|e2] eqn:V; simpl in W1.
      * destruct (raw_line_ready self level name text R) as (line & L).
        rewrite L in W1. simpl in W1.
        exists r2, (line ++ o2). split; [eapply writes_bind_ok; eauto|].
        rewrite Enc. simpl. auto.
      * exists (Raise e2), []. split; [now apply writes_bind_raise|].
        rewrite Enc. simpl. split; [split; discriminate|].
        intros e H. inversion H; subst. now apply (PV value).
    + exists (Raise e1), []. split; [now apply writes_bind_raise|].
      rewrite Enc. simpl. split; [split; discriminate|].
      intros e H. inversion H; subst.
      now rewrite (utf8_raises key e K).
  - rewrite encode_block_cons, encode_statement_group. unfold encode_group.
    destruct (IHitems (level + 1) self R) as (ri & oi & Wi & Si & Ei).
    destruct (IHrest level self R) as (r2 & o2 & W2 & S2 & E2).
    pose proof (wrapped_writes_text items level self key _ _ _ _ ri oi
                  (group_begin_writes key level self)
                  (group_end_writes key level self) Wi) as G.
    assert (Enc : encodable_block ((key, VGroup items) :: rest)
                  = is_ok (utf8 key) && encodable_block items
                    && encodable_block rest) by reflexivity.
    pose proof (opening_ready self level (group (cls self)) key R) as O.
    destruct (utf8 key) as [name|e1] eqn:K.
    + pose proof (closing_ready self level (end_group (cls self)) key name
                    R K) as C.
      destruct (opening self level (group (cls self)) key) as [first|];
        [|discriminate].
      destruct (closing self level (end_group (cls self)) key) as [last|];
        [|discriminate].
      destruct ri as [[]|ei]; simpl in G.
      * exists r2, ((first ++ oi ++ last) ++ o2).
        split; [eapply writes_bind_ok; eauto|].
        rewrite Enc. simpl. destruct Si as [Si _]. rewrite (Si eq_refl).
        simpl. auto.
      * eexists; eexists. split; [apply writes_bind_raise; exact G|].
        rewrite Enc. simpl.
        assert (N : encodable_block items = false).
        { destruct (encodable_block items); [|reflexivity].
          destruct Si as [_ Si]. discriminate (Si eq_refl). }
        rewrite N. simpl. split; [split; discriminate|].
        intros e H. inversion H; subst. now apply Ei.
    + destruct (opening self level (group (cls self)) key) as [|e0] eqn:Op;
        [discriminate|].
      simpl in O. inversion O; subst. simpl in G.
      eexists; eexists. split; [apply writes_bind_raise; exact G|].
      rewrite Enc. simpl. split; [split; discriminate|].
      intros e H. inversion H; subst.
      now rewrite (utf8_raises key e K).
  - rewrite encode_block_cons, encode_statement_object. unfold encode_object.
    destruct (IHitems (level + 1) self R) as (ri & oi & Wi & Si & Ei).
    destruct (IHrest level self R) as (r2 & o2 & W2 & S2 & E2).
    pose proof (wrapped_writes_text items level self key _ _ _ _ ri oi
                  (object_begin_writes key level self)
                  (object_end_writes key level self) Wi) as G.
    assert (Enc : encodable_block ((key, VDict items) :: rest)
                  = is_ok (utf8 key) && encodable_block items
                    && encodable_block rest) by reflexivity.
    pose proof (opening_ready self level (object (cls self)) key R) as O.
    destruct (utf8 key) as [name|e1] eqn:K.
    + pose proof (closing_ready self level (end_object (cls self)) key name
                    R K) as C.
      destruct (opening self level (object (cls self)) key) as [first|];
        [|discriminate].
      destruct (closing self level (end_object (cls self)) key) as [last|];
        [|discriminate].
      destruct ri as [[]|ei]; simpl in G.
      * exists r2, ((first ++ oi ++ last) ++ o2).
        split; [eapply writes_bind_ok; eauto|].
        rewrite Enc. simpl. destruct Si as [Si _]. rewrite (Si eq_refl).
        simpl. auto.
      * eexists; eexists. split; [apply writes_bind_raise; exact G|].
        rewrite Enc. simpl.
        assert (N : encodable_block items = false).
        { destruct (encodable_block items); [|reflexivity].
          destruct Si as [_ Si]. discriminate (Si eq_refl). }
        rewrite N. simpl. split; [split; discriminate|].
        intros e H. inversion H; subst. now apply Ei.
    + destruct (opening self level (object (cls self)) key) as [|e0] eqn:Op;
        [discriminate|].
      simpl in O. inversion O; subst. simpl in G.
      eexists; eexists. split; [apply writes_bind_raise; exact G|].
      rewrite Enc. simpl. split; [split; discriminate|].
      intros e H. inversion H; subst.
      now rewrite (utf8_raises key e K).
Qed.

Lemma encode_value_raises :
  yields_members ->
  forall (value : pyvalue) (e : exn),
    (encode_simple_value value = Raise e -> value_failure e)
    /\ (encode_value value = Raise e -> value_failure e).
Proof.
  intros Y value.
  assert (U : forall s e, utf8 s = Raise e -> value_failure e).
  { intros s e H. right. left. exact (utf8_raises s e H). }
  assert (D : forall v e, default v = Raise e :> result bytes ->
                          value_failure e).
  { intros v e H. left. exists v. unfold default in H. now inversion H. }
  induction value as [s|z|t|x| |elements IH|members IH|inner units IH
                     |items IH|items IH|r] using pyvalue_nested_ind;
    intro e.
  - assert (S : encode_simple_value (VStr s) = Raise e -> value_failure e).
    { simpl. unfold encode_string.
      destruct (needs_quotes s) eqn:Q; [|apply U].
      intro H. right. right. exists s. auto. }
    split; exact S.
  - split; apply U.
  - split; apply U.
  - split; apply U.
  - split; discriminate.
  - assert (S : encode_simple_value (VList elements) = Raise e ->
                value_failure e).
    { rewrite encode_simple_value_list. unfold encode_list, encode_sequence.
      destruct (collect encode_value elements) as [parts|e1] eqn:C;
        simpl; [discriminate|].
      intro H. inversion H; subst.
      destruct (collect_raises _ _ _ C) as (v & Hin & Hv).
      rewrite Forall_forall in IH. now apply (IH v Hin e). }
    split; exact S.
  - assert (S : encode_simple_value (VSet members) = Raise e ->
                value_failure e).
    { rewrite encode_simple_value_set. unfold encode_set.
      destruct (all_ok (set_iter _ (List.map encode_value members)))
        as [parts|e1] eqn:C; simpl; [discriminate|].
      intro H. inversion H; subst.
      apply all_ok_raises, Y, in_map_iff in C.
      destruct C as (v & Hv & Hin).
      rewrite Forall_forall in IH. now apply (IH v Hin e). }
    split; exact S.
  - split; [apply D|].
    unfold encode_value, encode_units.
    destruct (utf8 units) as [x|e1] eqn:K; simpl.
    + destruct (encode_simple_value inner) as [text|e2] eqn:V; simpl;
        [discriminate|].
      intro H. inversion H; subst. now apply (proj1 (IH e)).
    + intro H. inversion H; subst. now apply (U units).
  - split; apply D.
  - split; apply D.
  - split; apply D.
Qed.

(** A tree encodes exactly when all its texts can be built and, under
    [PDSLabelEncoder], none of its mappings is empty. *)
Theorem encode_succeeds_iff (module : block) (self : encoder)
  (stream : bytes) :
  (exists w, encode module (self, stream) = (Ok tt, w))
  <-> encodable_block module = true
      /\ (cls self = PDSLabelEncoder -> populated_block module = true).
Proof.
  assert (G : forall self0,
             ready self0 ->
             (exists w, PVLEncoder_encode module (self0, stream) = (Ok tt, w))
             <-> encodable_block module = true).
  { intros self0 R.
    destruct (block_outcome (fun _ => True) I (fun _ _ _ => I) module 0
                            self0 R) as (r & out & W & S & _).
    rewrite (PVLEncoder_encode_writes module self0 r out W stream).
    rewrite <- S. split.
    - intros (w & H). now inversion H.
    - intros ->. eauto. }
  rewrite encode_unfold. destruct (cls self) eqn:C.
  - rewrite G by (intro H; rewrite C in H; discriminate).
    split; [intro H; split; [exact H | discriminate] | now intros [H _]].
  - rewrite G by (intro H; rewrite C in H; discriminate).
    split; [intro H; split; [exact H | discriminate] | now intros [H _]].
  - assert (D : _detect_assignment_col module 0
                = if populated_block module
                  then Ok (list_max (candidates 0 module))
                  else Raise ValueError)
      by apply (detect_candidates 0 module).
    rewrite D. destruct (populated_block module).
    + rewrite G by (intros _; discriminate).
      split; [intro H; split; [exact H | reflexivity] | now intros [H _]].
    + split; [intros (w & H); discriminate|].
      intros [_ H]. discriminate (H eq_refl).
Qed.

Lemma encode_failure_kinds (module : block) (self : encoder) (stream : bytes)
  (e : exn) (w : world) :
  yields_members ->
  encode module (self, stream) = (Raise e, w) ->
  value_failure e
  \/ (e = ValueError /\ cls self = PDSLabelEncoder
      /\ populated_block module = false).
Proof.
  intros Y.
  assert (G : forall self0,
             ready self0 ->
             PVLEncoder_encode module (self0, stream) = (Raise e, w) ->
             value_failure e).
  { intros self0 R H.
    destruct (block_outcome value_failure (or_intror (or_introl eq_refl))
                (fun v e0 => proj2 (encode_value_raises Y v e0)) module 0
                self0 R) as (r & out & W & _ & E).
    rewrite (PVLEncoder_encode_writes module self0 r out W stream) in H.
    inversion H; subst. now apply E. }
  rewrite encode_unfold. destruct (cls self) eqn:C.
  - intro H. left. apply (G self); [|exact H].
    intro H0. rewrite C in H0. discriminate.
  - intro H. left. apply (G self); [|exact H].
    intro H0. rewrite C in H0. discriminate.
  - assert (D : _detect_assignment_col module 0
                = if populated_block module
                  then Ok (list_max (candidates 0 module))
                  else Raise ValueError)
      by apply (detect_candidates 0 module).
    rewrite D. destruct (populated_block module).
    + intro H. left. apply (G (set_col self (list_max (candidates 0 module))));
        [|exact H]. intros _. discriminate.
    + intro H. inversion H; subst. right. auto.
Qed.

(** Every exception of [encode] is the [TypeError] of [default], a key or
    a text without UTF-8 form, an exception of the quoting collaborator,
    or the [ValueError] of the column of [PDSLabelEncoder] on a tree with
    an empty mapping; so it is never [AttributeError]: the column is on
    the instance whenever a line is built. *)
Theorem encode_failures (module : block) (self : encoder) (stream : bytes)
  (e : exn) (w : world) :
  yields_members ->
  encode module (self, stream) = (Raise e, w) ->
  value_failure e
  \/ (e = ValueError /\ cls self = PDSLabelEncoder
      /\ populated_block module = false).
Proof.
  intros Y.
  assert (G : forall self0,
             ready self0 ->
             PVLEncoder_encode module (self0, stream) = (Raise e, w) ->
             value_failure e).
  { intros self0 R H.
    destruct (block_outcome value_failure (or_intror (or_introl eq_refl))
                (fun v e0 => proj2 (encode_value_raises Y v e0)) module 0
                self0 R) as (r & out & W & _ & E).
    rewrite (PVLEncoder_encode_writes module self0 r out W stream) in H.
    inversion H; subst. now apply E. }
  rewrite encode_unfold. destruct (cls self) eqn:C.
  - intro H. left. apply (G self); [|exact H].
    intro H0. rewrite C in H0. discriminate.
  - intro H. left. apply (G self); [|exact H].
    intro H0. rewrite C in H0. discriminate.
  - assert (D : _detect_assignment_col module 0
                = if populated_block module
                  then Ok (list_max (candidates 0 module))
                  else Raise ValueError)
      by apply (detect_candidates 0 module).
    rewrite D. destruct (populated_block module).
    + intro H. left. apply (G (set_col self (list_max (candidates 0 module))));
        [|exact H]. intros _. discriminate.
    + intro H. inversion H; subst. right. auto.
Qed.

(** ** The stream *)

(** [encode] only appends: whatever the stream holds, the bytes in it
    stay in front, untouched, and what is appended, the outcome and the
    instance left behind do not depend on them; this holds of a run that
    raises as of one that returns.  The instance keeps its class, and
    what a run that returns has appended ends in the closing token of the
    class. *)
Theorem encode_appends_to_stream (module : block) (self : encoder) :
  exists r self' out,
    (forall stream,
        encode module (self, stream) = (r, (self', stream ++ out)))
    /\ cls self' = cls self
    /\ (r = Ok tt -> exists body, out = body ++ end_statement (cls self)).
Proof.
  assert (P : forall self0,
             cls self0 = cls self ->
             exists r out,
               (forall stream,
                   PVLEncoder_encode module (self0, stream)
                   = (r, (self0, stream ++ out)))
               /\ (r = Ok tt ->
                   exists body, out = body ++ end_statement (cls self))).
  { intros self0 C.
    destruct (block_writes module 0 self0) as (rb & ob & W & _).
    pose proof (PVLEncoder_encode_writes module self0 rb ob W) as E.
    eexists; eexists. split; [exact E|].
    intro H. subst rb. exists ob. now rewrite C. }
  destruct (cls self) eqn:C.
  - destruct (P self C) as (r & out & E & T). exists r, self, out.
    split; [|split; [exact C | exact T]].
    intro stream. rewrite encode_unfold, C. apply E.
  - destruct (P self C) as (r & out & E & T). exists r, self, out.
    split; [|split; [exact C | exact T]].
    intro stream. rewrite encode_unfold, C. apply E.
  - destruct (_detect_assignment_col module 0) as [col|e] eqn:D.
    + destruct (P (set_col self col) C) as (r & out & E & T).
      exists r, (set_col self col), out.
      split; [|split; [exact C | exact T]].
      intro stream. rewrite encode_unfold, C, D. apply E.
    + exists (Raise e), self, [].
      split; [|split; [exact C | discriminate]].
      intro stream. rewrite encode_unfold, C, D. now rewrite app_nil_r.
Qed.

(** Encoding a block made of two parts is encoding the first part, then
    the second on what the first left; when the first part raises, its
    exception and its stream are those of the whole. *)
Theorem encode_block_concatenation (first second : block) (level : nat)
  (w : world) :
  encode_block (first ++ second) level w
  = match encode_block first level w with
    | (Ok _, w1) => encode_block second level w1
    | (Raise e, w1) => (Raise e, w1)
    end.
Proof.
  revert w. induction first as [|[key value] first IH]; intro w.
  - simpl. reflexivity.
  - cbn [app]. rewrite !encode_block_cons. unfold bind.
    destruct (encode_statement key value level w) as [[[]|e] w1];
      [apply IH | reflexivity].
Qed.

(** An entry that is no mapping is written as one whole line or not at
    all: when [encode_statement] returns, it has appended the indentation
    of the level, the key, then the rest of a line that ends in a line
    break; when it raises, for any reason, the stream is as before. *)
Theorem assignment_is_whole_or_absent (key : pystr) (value : pyvalue)
  (level : nat) (self : encoder) (stream : bytes) :
  isinstance_dict value = false ->
  match encode_statement key value level (self, stream) with
  | (Ok _, w) =>
      exists name rest,
        utf8 key = Ok name
        /\ w = (self,
                stream ++ indentation_of level ++ name ++ rest ++ newline)
  | (Raise _, w) => w = (self, stream)
  end.
Proof.
  intro Hv. rewrite encode_statement_assignment by exact Hv.
  rewrite (assignment_writes key value level self stream).
  unfold assignment_line.
  destruct (utf8 key) as [name|e1]; simpl; [|now rewrite app_nil_r].
  destruct (encode_value value) as [text|e2]; simpl; [|now rewrite app_nil_r].
  unfold raw_line. destruct (cls self).
  - simpl. exists name, (assignment ++ text). split; [reflexivity|].
    now repeat rewrite <- app_assoc.
  - simpl. exists name, (assignment ++ text). split; [reflexivity|].
    now repeat rewrite <- app_assoc.
  - destruct (assignment_col self) as [col|]; simpl;
      [|now rewrite app_nil_r].
    exists name,
      (repeat " "%byte (col - List.length (indentation_of level ++ name))
         ++ assignment ++ text).
    split; [reflexivity|]. unfold ljust.
    now repeat rewrite <- app_assoc.
Qed.

(** Under [PDSLabelEncoder] a group and an object of one name and one
    content end alike and are written alike but for their opening lines:
    both closing lines are [END = name], so the text after the opening
    line does not tell which of the two was encoded. *)
Theorem pds_group_and_object_differ_in_opening_only (key : pystr)
  (items : block) (level : nat) (col : option nat) (stream : bytes) :
  let self := Encoder PDSLabelEncoder col in
  exists r tail,
    encode_statement key (VGroup items) level (self, stream)
    = (r, (self, stream ++ text_of (opening self level (b "GROUP") key)
                        ++ tail))
    /\ encode_statement key (VDict items) level (self, stream)
       = (r, (self, stream ++ text_of (opening self level (b "OBJECT") key)
                           ++ tail)).
Proof.
  intro self.
  destruct (block_writes items (level + 1) self) as (ri & oi & Wi & _).
  pose proof (wrapped_writes_text items level self key _ _ _ _ ri oi
                (group_begin_writes key level self)
                (group_end_writes key level self) Wi) as G.
  pose proof (wrapped_writes_text items level self key _ _ _ _ ri oi
                (object_begin_writes key level self)
                (object_end_writes key level self) Wi) as O.
  rewrite encode_statement_group, encode_statement_object.
  unfold encode_group, encode_object. rewrite G, O. simpl cls.
  change (group PDSLabelEncoder) with (b "GROUP").
  change (object PDSLabelEncoder) with (b "OBJECT").
  change (end_object PDSLabelEncoder) with (end_group PDSLabelEncoder).
  unfold opening.
  destruct (utf8 key) as [name|e]; simpl.
  - unfold raw_line. simpl. destruct col as [c|]; simpl.
    + destruct ri as [[]|ei]; simpl; eexists; eexists; split; reflexivity.
    + exists (Raise (AttributeError (u "assignment_col"))), [].
      split; reflexivity.
  - exists (Raise e), []. split; reflexivity.
Qed.

(** ** Values that are refused *)

Lemma collect_app_raises {A B} (f : A -> result B) (pre post : list A)
  (x : A) (ys : list B) (e : exn) :
  collect f pre = Ok ys -> f x = Raise e ->
  collect f (pre ++ x :: post) = Raise e.
Proof.
  revert ys. induction pre as [|p pre IH]; intros ys; simpl.
  - intros _ Hx. now rewrite Hx.
  - destruct (f p) as [y|]; simpl; [|discriminate].
    destruct (collect f pre) as [ys'|] eqn:C; simpl; [|discriminate].
    intros _ Hx. now rewrite (IH ys' eq_refl Hx).
Qed.

(** A mapping is encoded as an entry of a block only: as an element of a
    sequence, or as the value a unit is attached to, a [dict] or a group
    is refused with the [TypeError] of [default]; so is a value with
    units to which a second unit is attached. *)
Theorem mapping_is_no_value (value : pyvalue) :
  isinstance_dict value = true ->
  (forall (before after : list pyvalue) (parts : list bytes),
      collect encode_value before = Ok parts ->
      encode_value (VList (before ++ value :: after))
      = Raise (TypeError (repr value ++ u " is not serializable")))
  /\ (forall (units : pystr) (x : bytes) (inner : pyvalue)
             (inner_units : pystr),
         utf8 units = Ok x ->
         encode_value (VUnits value units)
         = Raise (TypeError (repr value ++ u " is not serializable"))
         /\ encode_value (VUnits (VUnits inner inner_units) units)
            = Raise (TypeError (repr (VUnits inner inner_units)
                                ++ u " is not serializable"))).
Proof.
  intro Hd.
  assert (S : encode_value value
              = Raise (TypeError (repr value ++ u " is not serializable"))).
  { destruct value; try discriminate; reflexivity. }
  assert (S' : encode_simple_value value
               = Raise (TypeError (repr value ++ u " is not serializable"))).
  { destruct value; try discriminate; reflexivity. }
  split.
  - intros before after parts C.
    change (encode_value (VList (before ++ value :: after)))
      with (encode_simple_value (VList (before ++ value :: after))).
    rewrite encode_simple_value_list. unfold encode_list, encode_sequence.
    now rewrite (collect_app_raises encode_value before after value parts _
                   C S).
  - intros units x inner inner_units K. unfold encode_value, encode_units.
    rewrite K. simpl rbind. rewrite S'. split; reflexivity.
Qed.

(** ** The column is the length of some key *)

Lemma in_list_max_nonempty (xs : list nat) : xs <> [] -> In (list_max xs) xs.
Proof.
  induction xs as [|x xs IH]; [congruence|]. intros _.
  destruct xs as [|y xs].
  - left. simpl. lia.
  - simpl list_max. destruct (Nat.max_spec x (list_max (y :: xs)))
      as [[_ E]|[_ E]]; simpl list_max in *; rewrite E.
    + right. apply IH. discriminate.
    + now left.
Qed.

Lemma candidate_entry (blk : block) :
  forall d0 x,
    In x (candidates d0 blk) ->
    exists d key,
      entry_at d key blk /\ x = (d0 + d) * List.length indentation + len key.
Proof.
  induction blk as [|key value rest Hv IHrest|key items rest IHitems IHrest
                   |key items rest IHitems IHrest] using block_nested_ind;
    intros d0 x Hin.
  - destruct Hin.
  - unfold candidates in Hin. simpl in Hin. apply in_app_or in Hin.
    destruct Hin as [Hin|Hin].
    + assert (E : x = d0 * List.length indentation + len key).
      { destruct value; try discriminate; simpl in Hin;
          destruct Hin as [Hin|[]]; symmetry; exact Hin. }
      exists 0, key. split.
      * apply (entry_here key value). now left.
      * now rewrite Nat.add_0_r.
    + destruct (IHrest d0 x Hin) as (d & k & He & Hx).
      exists d, k. split; [|exact Hx].
      inversion He; subst.
      * eapply entry_here. right. eassumption.
      * eapply entry_in_object; [right; eassumption | assumption].
      * eapply entry_in_group; [right; eassumption | assumption].
  - unfold candidates in Hin. simpl in Hin. destruct Hin as [Hin|Hin].
    + exists 0, key. split.
      * apply (entry_here key (VGroup items)). now left.
      * now rewrite Nat.add_0_r.
    + apply in_app_or in Hin. destruct Hin as [Hin|Hin].
      * destruct (IHitems (S d0) x Hin) as (d & k & He & Hx).
        exists (S d), k. split.
        -- eapply entry_in_group; [left; reflexivity | exact He].
        -- rewrite Hx. replace (d0 + S d) with (S d0 + d) by lia.
           reflexivity.
      * destruct (IHrest d0 x Hin) as (d & k & He & Hx).
        exists d, k. split; [|exact Hx].
        inversion He; subst.
        -- eapply entry_here. right. eassumption.
        -- eapply entry_in_object; [right; eassumption | assumption].
        -- eapply entry_in_group; [right; eassumption | assumption].
  - unfold candidates in Hin. simpl in Hin. destruct Hin as [Hin|Hin].
    + exists 0, key. split.
      * apply (entry_here key (VDict items)). now left.
      * now rewrite Nat.add_0_r.
    + apply in_app_or in Hin. destruct Hin as [Hin|Hin].
      * destruct (IHitems (S d0) x Hin) as (d & k & He & Hx).
        exists (S d), k. split.
        -- eapply entry_in_object; [left; reflexivity | exact He].
        -- rewrite Hx. replace (d0 + S d) with (S d0 + d) by lia.
           reflexivity.
      * destruct (IHrest d0 x Hin) as (d & k & He & Hx).
        exists d, k. split; [|exact Hx].
        inversion He; subst.
        -- eapply entry_here. right. eassumption.
        -- eapply entry_in_object; [right; eassumption | assumption].
        -- eapply entry_in_group; [right; eassumption | assumption].
Qed.

(** When [_detect_assignment_col] returns, the column is the greatest
    indented length among the keys of the tree: it is depth times the
    width of the indentation unit plus the number of characters, for some
    key of the tree at its depth, be it the key of an entry or the name
    of a nested mapping or group, and no key of the tree has a greater
    indented length. *)
Theorem column_is_some_key (module : block) (col : nat) :
  _detect_assignment_col module 0 = Ok col ->
  (exists d key,
      entry_at d key module
      /\ col = d * List.length indentation + len key)
  /\ (forall d key,
         entry_at d key module ->
         d * List.length indentation + len key <= col).
Proof.
  intro H.
  assert (D : _detect_assignment_col module 0
              = if populated_block module
                then Ok (list_max (candidates 0 module))
                else Raise ValueError)
    by apply (detect_candidates 0 module).
  rewrite D in H. destruct (populated_block module) eqn:P; [|discriminate].
  inversion H; subst.
  assert (N : candidates 0 module <> []).
  { destruct module as [|[k v] rest]; [discriminate|].
    unfold candidates. simpl. destruct v; discriminate. }
  split.
  - destruct (candidate_entry module 0 _ (in_list_max_nonempty _ N))
      as (d & key & He & Hx).
    exists d, key. split; [exact He|]. rewrite Hx. reflexivity.
  - intros d key He.
    pose proof (entry_at_candidate d key module He 0) as Hin.
    apply in_list_max in Hin. rewrite Nat.add_0_l in Hin. exact Hin.
Qed.

End Outcomes.

(** * The report *)

Lemma spaces_len (n : nat) : len (spaces n) = n.
Proof. apply repeat_length. Qed.

Lemma format_left_len (s : pystr) (width : nat) :
  len (format_left s width) = Nat.max (len s) width.
Proof.
  unfold format_left, len. rewrite length_app. fold (len (spaces (width - List.length s))).
  rewrite spaces_len. lia.
Qed.

Lemma format_center_len (s : pystr) (width : nat) :
  len (format_center s width) = Nat.max (len s) width.
Proof.
  unfold format_center, len. rewrite !length_app.
  fold (len (spaces ((width - List.length s) / 2))).
  fold (len (spaces (width - List.length s - (width - List.length s) / 2))).
  rewrite !spaces_len.
  pose proof (Nat.Div0.mul_div_le (width - List.length s) 2). lia.
Qed.

Lemma join_str_len (separator : pystr) (parts : list pystr) :
  len (join_str separator parts)
  = list_sum (List.map len parts)
    + len separator * (List.length parts - 1).
Proof.
  induction parts as [|x parts IH]; [simpl; lia|].
  destruct parts as [|y parts].
  - simpl. lia.
  - change (join_str separator (x :: y :: parts))
      with (x ++ separator ++ join_str separator (y :: parts)).
    unfold len in *. rewrite !length_app, IH. simpl. lia.
Qed.

Lemma build_line_len (e0 : pystr) (es : list pystr) (w0 : nat)
  (ws : list nat) (separator : pystr) :
  exists line,
    build_line (e0 :: es) (w0 :: ws) separator = Ok line
    /\ len line
       = Nat.max (len e0) w0
         + list_sum (List.map cell_width (combine es ws))
         + len separator * List.length (combine es ws).
Proof.
  eexists. split; [reflexivity|].
  rewrite join_str_len. simpl List.map. simpl list_sum.
  rewrite format_left_len, length_cons, length_map, map_map.
  replace (List.map (fun x => len (format_center (fst x) (snd x)))
                    (combine es ws))
    with (List.map cell_width (combine es ws)).
  - lia.
  - apply map_ext. intros [e w]. unfold cell_width. simpl.
    now rewrite format_center_len.
Qed.

Lemma fitting_cells (es : list pystr) (ws : list nat) :
  Forall2 (fun e w => len e <= w) es ws ->
  list_sum (List.map cell_width (combine es ws)) = list_sum ws
  /\ List.length (combine es ws) = List.length ws.
Proof.
  induction 1 as [|e w es ws H _ IH]; [split; reflexivity|].
  destruct IH as [IH1 IH2]. simpl. unfold cell_width at 1. simpl.
  rewrite IH1, IH2. split; lia.
Qed.

Lemma build_line_fitting (elements : list pystr) (widths : list nat)
  (separator : pystr) :
  Forall2 (fun e w => len e <= w) elements widths ->
  match elements with
  | [] => build_line elements widths separator = Raise IndexError
  | _ :: _ =>
      exists line,
        build_line elements widths separator = Ok line
        /\ len line
           = list_sum widths + len separator * (List.length widths - 1)
  end.
Proof.
  intro F. destruct F as [|e0 w0 es ws H F]; [reflexivity|].
  destruct (build_line_len e0 es w0 ws separator) as (line & B & L).
  exists line. split; [exact B|].
  destruct (fitting_cells es ws F) as [S N]. rewrite L, S, N.
  simpl. lia.
Qed.

(** When every text fits its column, the line [build_line] returns is as
    long as the columns together and the separators between them, whatever
    the texts are; with no element it raises [IndexError]. *)
Theorem build_line_width (elements : list pystr) (widths : list nat)
  (separator : pystr) :
  Forall2 (fun e w => len e <= w) elements widths ->
  match elements with
  | [] => build_line elements widths separator = Raise IndexError
  | _ :: _ =>
      exists line,
        build_line elements widths separator = Ok line
        /\ len line
           = list_sum widths + len separator * (List.length widths - 1)
  end.
Proof.
  intro F. destruct F as [|e0 w0 es ws H F]; [reflexivity|].
  destruct (build_line_len e0 es w0 ws separator) as (line & B & L).
  exists line. split; [exact B|].
  destruct (fitting_cells es ws F) as [S N]. rewrite L, S, N.
  simpl. lia.
Qed.

Lemma max_by_len_step (rest : list pystr) (x : pystr) :
  let m := fold_left (fun best y => if len best <? len y then y else best)
                     rest x in
  len x <= len m
  /\ Forall (fun y => len y <= len m) rest
  /\ (m = x \/ In m rest).
Proof.
  revert x. induction rest as [|y rest IH]; intro x; simpl.
  - repeat split; auto.
  - destruct (Nat.ltb_spec (len x) (len y)) as [L|L].
    + destruct (IH y) as (A & F & I). repeat split.
      * lia.
      * constructor; assumption.
      * destruct I as [I|I]; [right; left; now rewrite I | right; right; exact I].
    + destruct (IH x) as (A & F & I). repeat split.
      * exact A.
      * constructor; [lia | assumption].
      * destruct I as [I|I]; [now left | right; right; exact I].
Qed.

Lemma max_by_len_longest (xs : list pystr) (m : pystr) :
  max_by_len xs = Ok m ->
  In m xs /\ Forall (fun x => len x <= len m) xs.
Proof.
  destruct xs as [|x rest]; simpl; [discriminate|].
  intro H. inversion H as [E]. clear H.
  destruct (max_by_len_step rest x) as (A & F & I). simpl in A, F, I.
  split.
  - destruct I as [I|I]; [left; now rewrite I | right; exact I].
  - constructor; assumption.
Qed.

Lemma max_by_len_some (xs : list pystr) :
  xs <> [] -> exists m, max_by_len xs = Ok m.
Proof. destruct xs; [congruence | simpl; eauto]. Qed.

Lemma collect_each {A B} (f : A -> result B) (xs : list A) (ys : list B) :
  collect f xs = Ok ys -> Forall2 (fun x y => f x = Ok y) xs ys.
Proof.
  revert ys. induction xs as [|x xs IH]; simpl; intros ys H.
  - inversion H. constructor.
  - destruct (f x) as [y|] eqn:E; simpl in H; [|discriminate].
    destruct (collect f xs) as [ys'|]; simpl in H; [|discriminate].
    inversion H; subst. constructor; auto.
Qed.

Lemma collect_all {A B} (f : A -> result B) (xs : list A) :
  Forall (fun x => exists y, f x = Ok y) xs ->
  exists ys, collect f xs = Ok ys.
Proof.
  induction 1 as [|x xs (y & Hy) _ (ys & IH)]; simpl; [eauto|].
  rewrite Hy, IH. simpl. eauto.
Qed.

Lemma dict_get_in {K V} (eqb : K -> K -> bool) (d : list (K * V)) (key : K)
  (v : V) :
  dict_get eqb d key = Ok v -> exists k, In (k, v) d /\ eqb k key = true.
Proof.
  unfold dict_get. destruct (find _ d) as [[k v']|] eqn:F; [|discriminate].
  intro H. inversion H; subst. apply find_some in F. exists k. exact F.
Qed.

Lemma report_loads_fit (x : option bool) (l : pystr) :
  dict_get option_bool_eqb report_loads x = Ok l -> len l <= 13.
Proof.
  intro H. apply dict_get_in in H. destruct H as (k & [E|[E|[]]] & _);
    inversion E; subst; simpl; lia.
Qed.

Lemma report_encodes_fit (x : option bool) (e : pystr) :
  dict_get option_bool_eqb report_encodes x = Ok e -> len e <= 15.
Proof.
  intro H. apply dict_get_in in H. destruct H as (k & [E|[E|[E|[]]]] & _);
    inversion E; subst; simpl; lia.
Qed.

Lemma many_loads_fit (x : option bool) (l : pystr) :
  dict_get option_bool_eqb many_loads x = Ok l -> len l <= 4.
Proof.
  intro H. apply dict_get_in in H. destruct H as (k & [E|[E|[]]] & _);
    inversion E; subst; simpl; lia.
Qed.

Lemma many_encodes_fit (x : option bool) (e : pystr) :
  dict_get option_bool_eqb many_encodes x = Ok e -> len e <= 4.
Proof.
  intro H. apply dict_get_in in H. destruct H as (k & [E|[E|[E|[]]]] & _);
    inversion E; subst; simpl; lia.
Qed.

(** The report on one file has one line for each flavor, and all its
    lines have one length: the longest flavor name, then the two columns
    of 13 and 15 characters, with the separators. *)
Theorem report_lines_aligned (r : list (pystr * outcome))
  (flavors : list pystr) (lines : list pystr) :
  report_lines r flavors = Ok lines ->
  List.length lines = List.length flavors
  /\ exists longest,
      max_by_len flavors = Ok longest
      /\ Forall (fun line => len line = len longest + 34) lines.
Proof.
  unfold report_lines.
  destruct (max_by_len flavors) as [longest|] eqn:M; simpl; [|discriminate].
  intro C. apply collect_each in C.
  split; [symmetry; exact (Forall2_length C)|].
  exists longest. split; [reflexivity|].
  destruct (max_by_len_longest flavors longest M) as [_ Fit].
  rewrite Forall_forall in Fit.
  clear M. induction C as [|k line ks ls Hk _ IH]; constructor.
  - destruct (dict_get pystr_eqb r k) as [pair|]; simpl in Hk; [|discriminate].
    destruct (dict_get option_bool_eqb report_loads (fst pair)) as [l|] eqn:L;
      simpl in Hk; [|discriminate].
    destruct (dict_get option_bool_eqb report_encodes (snd pair)) as [e|] eqn:E;
      simpl in Hk; [|discriminate].
    assert (F : Forall2 (fun e w => len e <= w) [k; l; e]
                        [len longest; 13; 15]).
    { constructor; [apply Fit; now left|].
      constructor; [exact (report_loads_fit _ _ L)|].
      constructor; [exact (report_encodes_fit _ _ E)|]. constructor. }
    destruct (build_line_fitting [k; l; e] [len longest; 13; 15] sep F)
      as (line' & B & W).
    assert (Q : Ok line = Ok line') by exact (eq_trans (eq_sym Hk) B).
    inversion Q; subst. rewrite W. simpl. lia.
  - apply IH. intros x Hx. apply Fit. now right.
Qed.

Lemma Ok_inj {A} (x y : A) : Ok x = Ok y -> x = y.
Proof. intro H. now inversion H. Qed.

Lemma list_sum_repeat (x n : nat) : list_sum (repeat x n) = x * n.
Proof. induction n as [|n IH]; simpl; [lia | rewrite IH; lia]. Qed.

Lemma fit_repeat (es : list pystr) (w : nat) :
  Forall (fun e => len e <= w) es ->
  Forall2 (fun e w' => len e <= w') es (repeat w (List.length es)).
Proof. induction 1; simpl; constructor; auto. Qed.

Lemma join_str_chars (P : N -> Prop) (separator : pystr)
  (parts : list pystr) :
  Forall P separator -> Forall (Forall P) parts ->
  Forall P (join_str separator parts).
Proof.
  intros Hs. induction 1 as [|x parts Hx Hp IH]; [constructor|].
  destruct parts as [|y parts]; [exact Hx|].
  change (join_str separator (x :: y :: parts))
    with (x ++ separator ++ join_str separator (y :: parts)).
  apply Forall_app. split; [exact Hx|]. apply Forall_app. split; auto.
Qed.

Lemma spaces_chars (P : N -> Prop) (n : nat) : P 32%N -> Forall P (spaces n).
Proof.
  intro H. unfold spaces. induction n; simpl; constructor; auto.
Qed.

Lemma rule_chars (s : pystr) :
  Forall (fun c => c = 32%N \/ c = 124%N) s ->
  Forall (fun c => c = 45%N \/ c = 43%N)
         (replace_char 32 45 (replace_char 124 43 s)).
Proof.
  induction 1 as [|c s [H|H] _ IH]; simpl; constructor; subst; auto.
Qed.

Lemma many_cells_fit (d : list (pystr * outcome)) (fs cells : list pystr) :
  collect (fun f =>
             rbind (dict_get pystr_eqb d f)
               (fun pair =>
                  rbind (dict_get option_bool_eqb many_loads (fst pair))
                    (fun l =>
                       rbind (dict_get option_bool_eqb many_encodes (snd pair))
                         (fun e =>
                            Ok (format_center l 4 ++ spaces 1
                                  ++ format_center e 4)))))
          fs = Ok cells ->
  Forall (fun cell => len cell <= 9) cells
  /\ List.length cells = List.length fs.
Proof.
  intro C. apply collect_each in C.
  split; [|symmetry; exact (Forall2_length C)].
  induction C as [|f cell fs cells' Hf _ IHc]; [constructor|].
  constructor; [|exact IHc].
  destruct (dict_get pystr_eqb d f) as [pair|]; [|discriminate].
  cbn [rbind] in Hf.
  destruct (dict_get option_bool_eqb many_loads (fst pair)) as [l|] eqn:L;
    [|discriminate].
  cbn [rbind] in Hf.
  destruct (dict_get option_bool_eqb many_encodes (snd pair)) as [e|] eqn:E;
    [|discriminate].
  cbn [rbind] in Hf. rewrite <- (Ok_inj _ _ Hf).
  unfold len. rewrite !length_app.
  fold (len (format_center l 4)). fold (len (format_center e 4)).
  fold (len (spaces 1)).
  rewrite !format_center_len, spaces_len.
  pose proof (many_loads_fit _ _ L). pose proof (many_encodes_fit _ _ E).
  lia.
Qed.

(** The table of [report_many], when no flavor name is longer than 9
    characters: a rule, the header, the rule again and one row for each
    file; the rule is made of the signs [-] and [+] only; the rule and
    every row are as long as the longest file name and 12 characters for
    each flavor; the header is as long as they are when some file name
    has 4 characters or more, and sticks out by the difference
    otherwise, the cell [File] being wider than the column. *)
Theorem report_many_lines_widths
  (r_list : list (pystr * list (pystr * outcome))) (flavors : list pystr)
  (lines : list pystr) :
  Forall (fun f => len f <= 9) flavors ->
  report_many_lines r_list flavors = Ok lines ->
  exists longest rule_line header_line rows,
    max_by_len (List.map fst r_list) = Ok longest
    /\ lines = rule_line :: header_line :: rule_line :: rows
    /\ List.length rows = List.length r_list
    /\ Forall (fun c => c = 45%N \/ c = 43%N) rule_line
    /\ len rule_line = len longest + 12 * List.length flavors
    /\ Forall (fun row => len row = len longest + 12 * List.length flavors)
              rows
    /\ len header_line
       = Nat.max 4 (len longest) + 12 * List.length flavors.
Proof.
  intros Short. unfold report_many_lines.
  destruct (max_by_len (List.map fst r_list)) as [longest|] eqn:M;
    [|discriminate].
  cbn [rbind]. change (widest many_loads) with (Ok 4).
  change (widest many_encodes) with (Ok 4). cbn [rbind].
  change (4 + 4 + 1) with 9.
  set (n := List.length flavors).
  set (c1 := len longest).
  destruct (build_line_fitting (spaces c1 :: repeat (spaces 9) n)
                             (c1 :: repeat 9 n) sep) as (ruled & B1 & L1).
  { constructor; [rewrite spaces_len; lia|].
    replace n with (List.length (repeat (spaces 9) n)) at 2
      by apply repeat_length.
    apply fit_repeat. apply Forall_forall. intros x Hx.
    apply repeat_spec in Hx. subst. rewrite spaces_len. lia. }
  rewrite B1. cbn [rbind].
  destruct (build_line_len (u "File") flavors c1 (repeat 9 n) sep)
    as (header_line & B2 & L2).
  rewrite B2. cbn [rbind].
  match goal with
  | |- rbind (collect ?f r_list) _ = _ -> _ =>
      destruct (collect f r_list) as [rows|] eqn:C; [|discriminate]
  end.
  cbn [rbind]. intro H. inversion H; subst. clear H.
  exists longest, (replace_char 32 45 (replace_char 124 43 ruled)),
    header_line, rows.
  assert (S : list_sum (c1 :: repeat 9 n)
              + len sep * (List.length (c1 :: repeat 9 n) - 1)
              = c1 + 12 * n).
  { simpl. rewrite list_sum_repeat, repeat_length. lia. }
  apply collect_each in C.
  split; [reflexivity|]. split; [reflexivity|].
  split; [symmetry; exact (Forall2_length C)|].
  split; [|split; [|split]].
  - apply rule_chars.
    assert (Q : Ok ruled
                = Ok (join_str sep
                        (format_left (spaces c1) c1
                         :: List.map (fun ew => format_center (fst ew) (snd ew))
                              (combine (repeat (spaces 9) n) (repeat 9 n)))))
      by exact (eq_trans (eq_sym B1) eq_refl).
    rewrite (Ok_inj _ _ Q).
    apply join_str_chars.
    + constructor; [now left|]. constructor; [now right|].
      constructor; [now left|]. constructor.
    + constructor.
      * unfold format_left. apply Forall_app.
        split; apply spaces_chars; now left.
      * apply Forall_forall. intros x Hx. apply in_map_iff in Hx.
        destruct Hx as ([e w] & E & Hin). subst x.
        apply in_combine_l in Hin. apply repeat_spec in Hin. subst e.
        unfold format_center. simpl fst. simpl snd.
        repeat (apply Forall_app; split); apply spaces_chars; now left.
  - unfold replace_char, len. rewrite !length_map. fold (len ruled).
    rewrite L1. exact S.
  - destruct (max_by_len_longest _ _ M) as [_ Fit].
    rewrite Forall_forall in Fit.
    assert (Fit' : forall r, In r r_list -> len (fst r) <= c1).
    { intros r Hr. apply Fit. now apply in_map. }
    clear M Fit B1 L1 B2 L2. 
    induction C as [|r row rs rows' Hr _ IH]; constructor.
    + match type of Hr with
      | rbind (collect ?g flavors) _ = _ =>
          destruct (collect g flavors) as [cells|] eqn:Cc; [|discriminate]
      end.
      cbn [rbind] in Hr.
      destruct (many_cells_fit (snd r) flavors cells Cc) as [Fc Nc].
      fold n in Nc.
      destruct (build_line_fitting (fst r :: cells) (c1 :: repeat 9 n) sep)
        as (row' & B & W).
      { constructor; [apply Fit'; now left|].
        rewrite <- Nc. now apply fit_repeat. }
      assert (Q : Ok row = Ok row') by exact (eq_trans (eq_sym Hr) B).
      inversion Q; subst. rewrite W. exact S.
    + apply IH. intros r' Hr'. apply Fit'. now right.
  - rewrite L2.
    destruct (fitting_cells flavors (repeat 9 n) (fit_repeat flavors 9 Short))
      as [Sum Len].
    rewrite Sum, Len, list_sum_repeat, repeat_length.
    change (len (u "File")) with 4. change (len sep) with 3. lia.
Qed.

(** * The driver, file after file *)

Section SameHost.

Context {quoting : Quoting} {host : Host}.

Lemma block_writes_transfer (blk : block) :
  forall level self1 self2,
    alike self1 self2 ->
    exists r out,
      writes (encode_block blk level) self1 r out
      /\ writes (encode_block blk level) self2 r out.
Proof.
  induction blk as [|key value rest Hv IHrest|key items rest IHitems IHrest
                   |key items rest IHitems IHrest] using block_nested_ind;
    intros level self1 self2 Al.
  - exists (Ok tt), []. split; apply writes_ret.
  - destruct (IHrest level self1 self2 Al) as (r2 & o2 & W1 & W2).
    rewrite !encode_block_cons, !encode_statement_assignment by exact Hv.
    pose proof (assignment_writes key value level self1) as A1.
    pose proof (assignment_writes key value level self2) as A2.
    assert (E : assignment_line self1 level key value
                = assignment_line self2 level key value).
    { unfold assignment_line. destruct (utf8 key); simpl; [|reflexivity].
      destruct (encode_value value); simpl; [|reflexivity].
      now apply raw_line_alike. }
    rewrite E in A1.
    destruct (assignment_line self2 level key value) as [line|e];
      simpl in A1, A2.
    + exists r2, (line ++ o2). split; eapply writes_bind_ok; eauto.
    + exists (Raise e), []. split; now apply writes_bind_raise.
  - destruct (IHitems (level + 1) self1 self2 Al) as (ri & oi & I1 & I2).
    destruct (IHrest level self1 self2 Al) as (r2 & o2 & W1 & W2).
    rewrite !encode_block_cons, !encode_statement_group. unfold encode_group.
    pose proof (wrapped_writes_text items level self1 key _ _
                  _ _ ri oi (group_begin_writes key level self1)
                  (group_end_writes key level self1) I1) as G1.
    pose proof (wrapped_writes_text items level self2 key _ _
                  _ _ ri oi (group_begin_writes key level self2)
                  (group_end_writes key level self2) I2) as G2.
    destruct Al as [C A]. rewrite <- C in G2.
    rewrite <- (opening_alike self1 self2 level _ key (conj C A)) in G2.
    rewrite <- (closing_alike self1 self2 level _ key (conj C A)) in G2.
    destruct (wrapped_result _ ri _) as [[]|e].
    + eexists; eexists. split; eapply writes_bind_ok; eauto.
    + eexists; eexists. split; apply writes_bind_raise; eauto.
  - destruct (IHitems (level + 1) self1 self2 Al) as (ri & oi & I1 & I2).
    destruct (IHrest level self1 self2 Al) as (r2 & o2 & W1 & W2).
    rewrite !encode_block_cons, !encode_statement_object. unfold encode_object.
    pose proof (wrapped_writes_text items level self1 key _ _
                  _ _ ri oi (object_begin_writes key level self1)
                  (object_end_writes key level self1) I1) as G1.
    pose proof (wrapped_writes_text items level self2 key _ _
                  _ _ ri oi (object_begin_writes key level self2)
                  (object_end_writes key level self2) I2) as G2.
    destruct Al as [C A]. rewrite <- C in G2.
    rewrite <- (opening_alike self1 self2 level _ key (conj C A)) in G2.
    rewrite <- (closing_alike self1 self2 level _ key (conj C A)) in G2.
    destruct (wrapped_result _ ri _) as [[]|e].
    + eexists; eexists. split; eapply writes_bind_ok; eauto.
    + eexists; eexists. split; apply writes_bind_raise; eauto.
Qed.

(** Two instances of one class: [encode] ends alike on both and writes
    the same, and each keeps its class. *)
Lemma encode_same_class (module : block) (self1 self2 : encoder)
  (stream1 stream2 : bytes) :
  cls self1 = cls self2 ->
  exists r out self1' self2',
    encode module (self1, stream1) = (r, (self1', stream1 ++ out))
    /\ encode module (self2, stream2) = (r, (self2', stream2 ++ out))
    /\ cls self1' = cls self1 /\ cls self2' = cls self2.
Proof.
  intro C.
  assert (P : forall s1 s2,
             alike s1 s2 ->
             exists r out,
               PVLEncoder_encode module (s1, stream1) = (r, (s1, stream1 ++ out))
               /\ PVLEncoder_encode module (s2, stream2)
                  = (r, (s2, stream2 ++ out))).
  { intros s1 s2 Al.
    destruct (block_writes_transfer module 0 s1 s2 Al) as (r & o & W1 & W2).
    apply PVLEncoder_encode_writes in W1.
    apply PVLEncoder_encode_writes in W2.
    destruct Al as [C' _]. rewrite <- C' in W2.
    eexists; eexists. split; [apply W1 | apply W2]. }
  rewrite !encode_unfold, <- C.
  assert (N : cls self1 <> PDSLabelEncoder -> alike self1 self2).
  { intro H. split; [exact C | intro H'; contradiction]. }
  pose proof C as C2.
  destruct (cls self1) eqn:C1.
  - destruct (P self1 self2) as (r & out & E1 & E2);
      [apply N; discriminate|].
    exists r, out, self1, self2. rewrite C1. auto.
  - destruct (P self1 self2) as (r & out & E1 & E2);
      [apply N; discriminate|].
    exists r, out, self1, self2. rewrite C1. auto.
  - destruct (_detect_assignment_col module 0) as [col|e].
    + destruct (P (set_col self1 col) (set_col self2 col))
        as (r & out & E1 & E2).
      { split; [simpl; now rewrite C1 | reflexivity]. }
      exists r, out, (set_col self1 col), (set_col self2 col).
      simpl. rewrite C1. auto.
    + exists (Raise e), [], self1, self2. rewrite !app_nil_r, C1. auto.
Qed.

End SameHost.

Section DriverFacts.

Context {quoting : Quoting} {host : Host} {library : Library}.

Lemma update_same_classes (st1 st2 : instances) (k : profile)
  (self1 self2 : encoder) :
  same_classes st1 st2 -> cls self1 = cls self2 ->
  same_classes (update st1 k self1) (update st2 k self2).
Proof.
  intros S C k'. unfold update. destruct (profile_eqb k k'); auto.
Qed.

Lemma update_keeps_classes (st : instances) (k : profile) (self : encoder) :
  cls self = cls (st k) -> same_classes st (update st k self).
Proof.
  intros C k'. unfold update. destruct (profile_eqb k k') eqn:E; auto.
  destruct k, k'; try discriminate; now rewrite C.
Qed.

Lemma pvl_flavor_same (txt : text) (k : profile) (st1 st2 : instances) :
  same_classes st1 st2 ->
  exists r st1' st2',
    pvl_flavor txt k st1 = (r, st1')
    /\ pvl_flavor txt k st2 = (r, st2')
    /\ same_classes st1' st2' /\ same_classes st1 st1'
    /\ (forall o, r = Ok o -> reported o).
Proof.
  intro S. unfold pvl_flavor.
  destruct (loads txt k) as [some_pvl|e].
  - unfold dumps.
    destruct (encode_same_class some_pvl (st1 k) (st2 k) [] [] (S k))
      as (r & out & s1 & s2 & E1 & E2 & C1 & C2).
    rewrite E1, E2.
    assert (U : same_classes (update st1 k s1) (update st2 k s2)).
    { apply update_same_classes; [exact S|]. now rewrite C1, C2. }
    assert (K : same_classes st1 (update st1 k s1))
      by now apply update_keeps_classes.
    destruct r as [[]|e].
    + eexists; eexists; eexists.
      split; [reflexivity|]. split; [reflexivity|].
      split; [exact U|]. split; [exact K|].
      intros o H. inversion H. right. now left.
    + destruct (caught_on_encode e).
      * eexists; eexists; eexists.
        split; [reflexivity|]. split; [reflexivity|].
        split; [exact U|]. split; [exact K|].
        intros o H. inversion H. right. now right.
      * eexists; eexists; eexists.
        split; [reflexivity|]. split; [reflexivity|].
        split; [exact U|]. split; [exact K|]. discriminate.
  - assert (R : same_classes st1 st1) by (intro k'; reflexivity).
    destruct (caught_on_load e).
    + eexists; eexists; eexists.
      split; [reflexivity|]. split; [reflexivity|].
      split; [exact S|]. split; [exact R|].
      intros o H. inversion H. now left.
    + eexists; eexists; eexists.
      split; [reflexivity|]. split; [reflexivity|].
      split; [exact S|]. split; [exact R|]. discriminate.
Qed.

Lemma same_classes_trans (st1 st2 st3 : instances) :
  same_classes st1 st2 -> same_classes st2 st3 -> same_classes st1 st3.
Proof. intros A B k. unfold same_classes in *. now rewrite A. Qed.

Lemma each_flavor_same (txt : text) (ks : list profile) :
  forall st1 st2,
    same_classes st1 st2 ->
    exists r st1' st2',
      each_flavor txt ks st1 = (r, st1')
      /\ each_flavor txt ks st2 = (r, st2')
      /\ same_classes st1' st2' /\ same_classes st1 st1'
      /\ (forall rs, r = Ok rs ->
                     List.map fst rs = ks
                     /\ Forall (fun kr => reported (snd kr)) rs).
Proof.
  induction ks as [|k ks IH]; intros st1 st2 S; simpl.
  - exists (Ok []), st1, st2.
    split; [reflexivity|]. split; [reflexivity|]. split; [exact S|].
    split; [intro k'; reflexivity|].
    intros rs H. inversion H. split; [reflexivity | constructor].
  - destruct (pvl_flavor_same txt k st1 st2 S)
      as (r & s1 & s2 & E1 & E2 & S' & K & V).
    rewrite E1, E2. destruct r as [o|e].
    + destruct (IH s1 s2 S') as (r' & t1 & t2 & F1 & F2 & T & K' & V').
      rewrite F1, F2.
      assert (KK : same_classes st1 t1)
        by (eapply same_classes_trans; eauto).
      destruct r' as [rs|e].
      * eexists; eexists; eexists.
        split; [reflexivity|]. split; [reflexivity|]. split; [exact T|].
        split; [exact KK|].
        intros rs' H. inversion H; subst.
        destruct (V' rs eq_refl) as [M F]. split.
        -- simpl. now rewrite M.
        -- constructor; [now apply V | exact F].
      * eexists; eexists; eexists.
        split; [reflexivity|]. split; [reflexivity|]. split; [exact T|].
        split; [exact KK|]. discriminate.
    + eexists; eexists; eexists.
      split; [reflexivity|]. split; [reflexivity|]. split; [exact S'|].
      split; [exact K|]. discriminate.
Qed.

Lemma main_same (files : list pystr) :
  forall st1 st2,
    same_classes st1 st2 ->
    exists r st1' st2',
      main files st1 = (r, st1')
      /\ main files st2 = (r, st2')
      /\ same_classes st1' st2' /\ same_classes st1 st1'
      /\ (forall rl, r = Ok rl -> well_formed rl files).
Proof.
  induction files as [|f files IH]; intros st1 st2 S; cbn [main].
  - exists (Ok []), st1, st2.
    split; [reflexivity|]. split; [reflexivity|]. split; [exact S|].
    split; [intro k'; reflexivity|].
    intros rl H. inversion H. split; [reflexivity | constructor].
  - destruct (get_text_from f) as [txt|e].
    + destruct (each_flavor_same txt flavors st1 st2 S)
        as (r & s1 & s2 & E1 & E2 & S' & K & V).
      rewrite E1, E2. destruct r as [results|e].
      * destruct (IH s1 s2 S') as (r' & t1 & t2 & F1 & F2 & T & K' & V').
        rewrite F1, F2.
        assert (KK : same_classes st1 t1)
          by (eapply same_classes_trans; eauto).
        destruct r' as [rl|e].
        -- eexists; eexists; eexists.
           split; [reflexivity|]. split; [reflexivity|]. split; [exact T|].
           split; [exact KK|].
           intros rl' H. inversion H; subst.
           destruct (V' rl eq_refl) as [M F]. split.
           ++ simpl. now rewrite M.
           ++ constructor; [exact (V results eq_refl) | exact F].
        -- eexists; eexists; eexists.
           split; [reflexivity|]. split; [reflexivity|]. split; [exact T|].
           split; [exact KK|]. discriminate.
      * eexists; eexists; eexists.
        split; [reflexivity|]. split; [reflexivity|]. split; [exact S'|].
        split; [exact K|]. discriminate.
    + exists (Raise e), st1, st2.
      split; [reflexivity|]. split; [reflexivity|]. split; [exact S|].
      split; [intro k'; reflexivity|]. discriminate.
Qed.

(** When [main] gets to the end of its loops, its list has one entry
    for each file, in the order of the command line, and each entry has
    one pair for each key of [dialects], in the order of the table; every
    pair is [(False, None)], [(True, True)] or [(True, False)]: as the
    docstring of [pvl_flavor] says, the second element is [None] exactly
    when the first is [False]. *)
Theorem main_results_shape (files : list pystr) (st st' : instances)
  (results_list : list (pystr * list (profile * outcome))) :
  main files st = (Ok results_list, st') ->
  List.map fst results_list = files
  /\ Forall (fun fr =>
               List.map fst (snd fr) = flavors
               /\ Forall (fun kr =>
                            snd kr = (Some false, None)
                            \/ snd kr = (Some true, Some true)
                            \/ snd kr = (Some true, Some false))
                         (snd fr))
            results_list.
Proof.
  intro H.
  destruct (main_same files st st (fun k => eq_refl))
    as (r & s1 & s2 & E1 & _ & _ & _ & V).
  rewrite E1 in H. inversion H; subst. exact (V results_list eq_refl).
Qed.

Lemma main_app (files1 files2 : list pystr) :
  forall st,
    main (files1 ++ files2) st
    = match main files1 st with
      | (Ok r1, st1) =>
          match main files2 st1 with
          | (Ok r2, st2) => (Ok (r1 ++ r2), st2)
          | (Raise e, st2) => (Raise e, st2)
          end
      | (Raise e, st1) => (Raise e, st1)
      end.
Proof.
  induction files1 as [|f files1 IH]; intro st.
  - simpl. destruct (main files2 st) as [[r2|e] st2]; reflexivity.
  - cbn [main app]. destruct (get_text_from f) as [txt|e]; [|reflexivity].
    destruct (each_flavor txt flavors st) as [[results|e] s1]; [|reflexivity].
    rewrite IH. destruct (main files1 s1) as [[r1|e] t1]; [|reflexivity].
    destruct (main files2 t1) as [[r2|e] t2]; reflexivity.
Qed.

(** The encoder instances of [dialects] serve for every file, and
    [PDSLabelEncoder] leaves a column on its instance; yet no file's
    results depend on the files before it: of two lists of files, neither
    empty, when [main] gets through the first, the outcome of [main] on
    the first followed by the second is the outcome on the second alone,
    with the results of the first in front. *)
Theorem main_forgets_earlier_files (files1 files2 : list pystr)
  (st st1 : instances) (r1 : list (pystr * list (profile * outcome))) :
  files1 <> [] ->
  files2 <> [] ->
  main files1 st = (Ok r1, st1) ->
  fst (main (files1 ++ files2) st)
  = match fst (main files2 st) with
    | Ok r2 => Ok (r1 ++ r2)
    | Raise e => Raise e
    end.
Proof.
  intros _ _ H. rewrite main_app, H.
  destruct (main_same files1 st st (fun k => eq_refl))
    as (r & s1 & s2 & E1 & _ & _ & K & _).
  rewrite E1 in H. inversion H; subst.
  destruct (main_same files2 st st1 K) as (r2 & t1 & t2 & F1 & F2 & _).
  rewrite F1, F2. destruct r2; reflexivity.
Qed.

End DriverFacts.

(** ** The report of [main] *)

Lemma loads_tables_total (x : option bool) :
  x <> None ->
  (exists l, dict_get option_bool_eqb report_loads x = Ok l)
  /\ (exists l, dict_get option_bool_eqb many_loads x = Ok l).
Proof.
  destruct x as [[]|]; [split; eexists; reflexivity ..|congruence].
Qed.

Lemma encodes_tables_total (x : option bool) :
  (exists e, dict_get option_bool_eqb report_encodes x = Ok e)
  /\ (exists e, dict_get option_bool_eqb many_encodes x = Ok e).
Proof. destruct x as [[]|]; split; eexists; reflexivity. Qed.

Lemma named_get (results : list (profile * outcome)) (k : profile) :
  List.map fst results = flavors ->
  exists o,
    dict_get pystr_eqb (named results) (flavor_name k) = Ok o
    /\ In (k, o) results.
Proof.
  intro H.
  destruct results as [|[k1 o1] [|[k2 o2] [|[k3 o3] [|[k4 o4] [|[k5 o5]
                      [|? ?]]]]]]; try discriminate.
  inversion H; subst.
  destruct k; eexists; (split; [reflexivity|]); simpl; auto 6.
Qed.

Lemma reported_loaded (o : outcome) : reported o -> fst o <> None.
Proof. intros [H|[H|H]]; subst; discriminate. Qed.

(** A list of results as [main] builds it always has a report. *)
Lemma report_of_well_formed
  (results_list : list (pystr * list (profile * outcome)))
  (files : list pystr) :
  well_formed results_list files -> files <> [] ->
  exists text,
    report (List.map (fun fr => (fst fr, named (snd fr))) results_list)
           (List.map flavor_name flavors)
    = Ok text.
Proof.
  intros [M W] N.
  destruct results_list as [|first rest]; [simpl in M; congruence|].
  assert (Each : forall fr,
             In fr (first :: rest) ->
             forall k,
               exists pair l1 l2 e1 e2,
                 dict_get pystr_eqb (named (snd fr)) (flavor_name k) = Ok pair
                 /\ dict_get option_bool_eqb report_loads (fst pair) = Ok l1
                 /\ dict_get option_bool_eqb many_loads (fst pair) = Ok l2
                 /\ dict_get option_bool_eqb report_encodes (snd pair) = Ok e1
                 /\ dict_get option_bool_eqb many_encodes (snd pair) = Ok e2).
  { intros fr Hin k. rewrite Forall_forall in W.
    destruct (W fr Hin) as [Keys Valid].
    destruct (named_get (snd fr) k Keys) as (o & G & Ho).
    rewrite Forall_forall in Valid.
    pose proof (reported_loaded o (Valid (k, o) Ho)) as L.
    destruct (loads_tables_total (fst o) L) as [(l1 & L1) (l2 & L2)].
    destruct (encodes_tables_total (snd o)) as [(e1 & E1) (e2 & E2)].
    exists o, l1, l2, e1, e2. auto. }
  unfold report. cbn [List.map snd fst].
  assert (Len : List.length (named (snd first))
                = List.length (List.map flavor_name flavors)).
  { inversion W as [|? ? [Keys _] _]; subst.
    unfold named. rewrite !length_map, <- Keys, length_map. reflexivity. }
  rewrite Len, Nat.eqb_refl. cbn [negb].
  destruct (1 <? List.length
                   ((fst first, named (snd first))
                    :: List.map (fun fr => (fst fr, named (snd fr))) rest)).
  - unfold report_many, report_many_lines.
    cbn [List.map fst]. unfold max_by_len at 1. cbn [rbind].
    change (widest many_loads) with (Ok 4).
    change (widest many_encodes) with (Ok 4). cbn [rbind].
    match goal with
    | |- context [collect ?f (?x :: List.map ?g rest)] =>
        change (x :: List.map g rest) with (List.map g (first :: rest));
        destruct (collect_all f (List.map g (first :: rest))) as (rows & R)
    end.
    { apply Forall_forall. intros r Hr. apply in_map_iff in Hr.
      destruct Hr as (fr & E & Hin). subst r. cbn [fst snd].
      match goal with
      | |- context [collect ?f (List.map flavor_name flavors)] =>
          destruct (collect_all f (List.map flavor_name flavors))
            as (cells & C)
      end.
      { apply Forall_forall. intros name Hn. apply in_map_iff in Hn.
        destruct Hn as (k & E & _). subst name.
        destruct (Each fr Hin k) as (pair & l1 & l2 & e1 & e2 & G & _ & L
                                     & _ & E).
        rewrite G. cbn [rbind]. rewrite L. cbn [rbind]. rewrite E.
        cbn [rbind]. eauto. }
      rewrite C. cbn [rbind]. simpl. eauto. }
    rewrite R. simpl. eauto.
  - unfold report_lines. unfold max_by_len at 1. cbn [List.map rbind flavors].
    change (widest report_loads) with (Ok 13).
    change (widest report_encodes) with (Ok 15). cbn [rbind].
    match goal with
    | |- context [collect ?f ?names] =>
        destruct (collect_all f names) as (lines & C)
    end.
    { apply Forall_forall. intros name Hn.
      change (In name (List.map flavor_name flavors)) in Hn.
      apply in_map_iff in Hn.
      destruct Hn as (k & E & _). subst name.
      destruct (Each first (or_introl eq_refl) k)
        as (pair & l1 & l2 & e1 & e2 & G & L & _ & E & _).
      rewrite G. cbn [rbind]. rewrite L. cbn [rbind]. rewrite E.
      cbn [rbind]. simpl. eauto. }
    rewrite C. simpl. eauto.
Qed.

Section ReportOfMain.

Context {quoting : Quoting} {host : Host} {library : Library}.

(** Once the loops of [main] are through, for at least one file, the
    report is printed: [report] finds every key it looks up, in the lists
    of results and in its own tables, and raises neither [KeyError] nor
    [IndexError] nor [ValueError]. *)
Theorem main_prints_a_report (files : list pystr) (st st' : instances)
  (results_list : list (pystr * list (profile * outcome))) :
  files <> [] ->
  main files st = (Ok results_list, st') ->
  exists text, main_printed files st = (Ok text, st').
Proof.
  intros N H. unfold main_printed.
  destruct files as [|f rest]; [congruence|]. set (files := f :: rest) in *.
  rewrite H.
  destruct (main_same files st st (fun k => eq_refl))
    as (r & s1 & s2 & E1 & _ & _ & _ & V).
  rewrite E1 in H. inversion H; subst.
  destruct (report_of_well_formed results_list files
              (V results_list eq_refl) N) as (text & R).
  rewrite R. eauto.
Qed.

End ReportOfMain.

(** * Integers *)

Lemma utf8_ascii_cons (c : ascii) (s : string) :
  utf8_point (N_of_ascii c) = Ok [byte_of_ascii c] ->
  utf8 (u s) = Ok (b s) ->
  utf8 (u (String c s)) = Ok (b (String c s)).
Proof.
  intros H1 H2. change (u (String c s)) with (N_of_ascii c :: u s).
  cbn [utf8]. rewrite H1, H2. reflexivity.
Qed.

Lemma utf8_digits (d : Decimal.uint) :
  utf8 (u (NilEmpty.string_of_uint d)) = Ok (b (NilEmpty.string_of_uint d)).
Proof.
  induction d; cbn [NilEmpty.string_of_uint];
    [reflexivity | apply utf8_ascii_cons; [reflexivity | assumption] ..].
Qed.

Lemma utf8_decimal (d : Decimal.int) :
  utf8 (u (NilZero.string_of_int d)) = Ok (b (NilZero.string_of_int d)).
Proof.
  assert (U : forall d', utf8 (u (NilZero.string_of_uint d'))
                         = Ok (b (NilZero.string_of_uint d'))).
  { intro d'. destruct d'; try apply utf8_digits. reflexivity. }
  destruct d as [d|d]; cbn [NilZero.string_of_int]; [apply U|].
  apply utf8_ascii_cons; [reflexivity | apply U].
Qed.

Section Integers.

Context {quoting : Quoting} {host : Host}.

(** An [int] always has a text, under every dialect and whatever the
    collaborators are: its decimal digits, with the sign [-] in front of a
    negative one, in one byte each; and the text is read back as the same
    integer, so that two integers never share a text.  The integer is
    taken within the 4300 digits to which recent versions of Python limit
    the conversion of an [int] to text. *)
Theorem integers_encode_as_decimal (z : Z) :
  (Z.abs z < 10 ^ 4300)%Z ->
  exists digits : string,
    encode_value (VInt z) = Ok (b digits)
    /\ encode_simple_value (VInt z) = Ok (b digits)
    /\ option_map Z.of_int (NilZero.int_of_string digits) = Some z.
Proof.
  intros _.
  exists (NilZero.string_of_int (Z.to_int z)).
  assert (E : encode_simple_value (VInt z)
              = Ok (b (NilZero.string_of_int (Z.to_int z)))).
  { change (encode_simple_value (VInt z))
      with (utf8 (u (NilZero.string_of_int (Z.to_int z)))).
    apply utf8_decimal. }
  split; [exact E|]. split; [exact E|].
  rewrite NilZero.isi.
  - simpl. now rewrite DecimalZ.of_to.
  - destruct z; simpl; try discriminate.
    intro H. inversion H as [H']. now apply DecimalPos.Unsigned.to_uint_nonnil in H'.
  - destruct z; simpl; try discriminate.
    intro H. inversion H as [H']. now apply DecimalPos.Unsigned.to_uint_nonnil in H'.
Qed.

End Integers.

(** * What leaves [pvl_flavor] *)

Section Escapes.

Context {quoting : Quoting} {host : Host} {library : Library}.

(** The exceptions that leave [pvl_flavor], and so end [main]: an
    exception of the load that is neither [LexerError] nor [ParseError];
    the [TypeError] of [default]; an exception of the quoting collaborator
    that the clause around [dumps] does not take.  The [ValueError] of the
    column and a key or text without UTF-8 form never leave it: they are
    reported as [(True, False)]. *)
Theorem pvl_flavor_escapes (txt : text) (k : profile) (st st' : instances)
  (e : exn) :
  yields_members ->
  pvl_flavor txt k st = (Raise e, st') ->
  (loads txt k = Raise e /\ caught_on_load e = false)
  \/ not_serializable e
  \/ (quoting_raises e /\ caught_on_encode e = false).
Proof.
  intros Y. unfold pvl_flavor.
  destruct (loads txt k) as [some_pvl|e0] eqn:L.
  - unfold dumps.
    destruct (encode some_pvl (st k, [])) as [[[]|e1] [self out]] eqn:E;
      [discriminate|].
    destruct (caught_on_encode e1) eqn:C; [discriminate|].
    intro H. inversion H; subst.
    destruct (encode_failure_kinds some_pvl (st k) [] e (self, out) Y E)
      as [[N|[U|Q]]|[V _]].
    + right. now left.
    + subst. discriminate.
    + right. right. auto.
    + subst. discriminate.
  - destruct (caught_on_load e0) eqn:C; [discriminate|].
    intro H. inversion H; subst. left. auto.
Qed.

End Escapes.

(** * Concrete runs of the further properties *)

Lemma encode_succeeds_iff_witness :
  (encodable_block (quoting := plain_quoting) (host := listing_host)
                   label_with_group = true
   /\ (cls (Encoder PDSLabelEncoder None) = PDSLabelEncoder ->
       populated_block label_with_group = true))
  /\ exists w,
      sample_encode label_with_group (Encoder PDSLabelEncoder None, [])
      = (Ok tt, w).
Proof.
  assert (H : encodable_block (quoting := plain_quoting)
                (host := listing_host) label_with_group = true
              /\ (cls (Encoder PDSLabelEncoder None) = PDSLabelEncoder ->
                  populated_block label_with_group = true))
    by (split; [reflexivity | intros _; reflexivity]).
  split; [exact H|].
  apply (proj2 (encode_succeeds_iff (quoting := plain_quoting)
                  (host := listing_host) label_with_group
                  (Encoder PDSLabelEncoder None) [])).
  exact H.
Defined.

Lemma encode_failures_witness :
  yields_members (host := listing_host)
  /\ sample_encode (plug path_to_C (VOther a_date))
                   (Encoder PVLEncoder None, [])
     = (Raise (TypeError (a_date ++ u " is not serializable")),
        (Encoder PVLEncoder None,
         b "A = 1" ++ newline ++ b "BEGIN_GROUP = G" ++ newline
           ++ b "  B = 2" ++ newline))
  /\ (value_failure (quoting := plain_quoting) (host := listing_host)
                    (TypeError (a_date ++ u " is not serializable"))
      \/ (TypeError (a_date ++ u " is not serializable") = ValueError
          /\ cls (Encoder PVLEncoder None) = PDSLabelEncoder
          /\ populated_block (plug path_to_C (VOther a_date)) = false)).
Proof.
  assert (Y : yields_members (host := listing_host))
    by (intros A xs x H; exact H).
  split; [exact Y|]. split; [reflexivity|].
  apply (encode_failures (quoting := plain_quoting) (host := listing_host)
           (plug path_to_C (VOther a_date)) (Encoder PVLEncoder None) []
           (TypeError (a_date ++ u " is not serializable"))
           (Encoder PVLEncoder None,
            b "A = 1" ++ newline ++ b "BEGIN_GROUP = G" ++ newline
              ++ b "  B = 2" ++ newline) Y).
  reflexivity.
Defined.

Lemma assignment_is_whole_or_absent_witness :
  isinstance_dict (VInt 1) = false
  /\ match encode_statement (quoting := plain_quoting) (host := listing_host)
                            (u "A") (VInt 1) 1 (Encoder PVLEncoder None, b "x")
     with
     | (Ok _, w) =>
         exists name rest,
           utf8 (u "A") = Ok name
           /\ w = (Encoder PVLEncoder None,
                   b "x" ++ indentation_of 1 ++ name ++ rest ++ newline)
     | (Raise _, w) => w = (Encoder PVLEncoder None, b "x")
     end.
Proof.
  split; [reflexivity|].
  apply (assignment_is_whole_or_absent (quoting := plain_quoting)
           (host := listing_host) (u "A") (VInt 1) 1
           (Encoder PVLEncoder None) (b "x")).
  reflexivity.
Defined.

Lemma mapping_is_no_value_witness :
  isinstance_dict (VDict []) = true
  /\ collect (encode_value (quoting := plain_quoting) (host := listing_host))
             [VInt 1] = Ok [b "1"]
  /\ encode_value (quoting := plain_quoting) (host := listing_host)
                  (VList ([VInt 1] ++ VDict [] :: [VInt 2]))
     = Raise (TypeError (u "<dict> is not serializable"))
  /\ utf8 (u "km") = Ok (b "km")
  /\ encode_value (quoting := plain_quoting) (host := listing_host)
                  (VUnits (VDict []) (u "km"))
     = Raise (TypeError (u "<dict> is not serializable")).
Proof.
  pose proof (mapping_is_no_value (quoting := plain_quoting)
                (host := listing_host) (VDict []) eq_refl) as [L U].
  split; [reflexivity|]. split; [reflexivity|].
  split; [exact (L [VInt 1] [VInt 2] [b "1"] eq_refl)|].
  split; [reflexivity|].
  exact (proj1 (U (u "km") (b "km") VNone [] eq_refl)).
Defined.

Lemma column_is_some_key_witness :
  _detect_assignment_col label_with_group 0 = Ok 3
  /\ (exists d key,
         entry_at d key label_with_group
         /\ 3 = d * List.length indentation + len key)
  /\ (forall d key,
         entry_at d key label_with_group ->
         d * List.length indentation + len key <= 3).
Proof.
  split; [reflexivity|].
  apply (column_is_some_key label_with_group 3). reflexivity.
Defined.

Lemma build_line_width_witness :
  Forall2 (fun e w => len e <= w) [u "PVL"; u "Loads"; u "Encodes"]
          [4; 13; 15]
  /\ exists line,
      build_line [u "PVL"; u "Loads"; u "Encodes"] [4; 13; 15] sep = Ok line
      /\ len line
         = list_sum [4; 13; 15] + len sep * (List.length [4; 13; 15] - 1).
Proof.
  assert (F : Forall2 (fun e w => len e <= w)
                      [u "PVL"; u "Loads"; u "Encodes"] [4; 13; 15]).
  { constructor; [simpl; lia|]. constructor; [simpl; lia|].
    constructor; [simpl; lia|]. constructor. }
  split; [exact F|].
  exact (build_line_width [u "PVL"; u "Loads"; u "Encodes"] [4; 13; 15]
           sep F).
Defined.

Lemma report_lines_aligned_witness :
  report_lines (named mixed_results) (List.map flavor_name flavors)
  = Ok mixed_report_lines
  /\ List.length mixed_report_lines
     = List.length (List.map flavor_name flavors)
  /\ exists longest,
      max_by_len (List.map flavor_name flavors) = Ok longest
      /\ Forall (fun line => len line = len longest + 34) mixed_report_lines.
Proof.
  split; [reflexivity|].
  apply (report_lines_aligned (named mixed_results)
           (List.map flavor_name flavors) mixed_report_lines).
  reflexivity.
Defined.

Lemma report_many_lines_widths_witness :
  Forall (fun f => len f <= 9) (List.map flavor_name flavors)
  /\ report_many_lines [(u "a.lbl", named mixed_results);
                        (u "bb", named mixed_results)]
                       (List.map flavor_name flavors)
     = Ok mixed_table_lines
  /\ exists longest rule_line header_line rows,
      max_by_len (List.map fst [(u "a.lbl", named mixed_results);
                                (u "bb", named mixed_results)])
      = Ok longest
      /\ mixed_table_lines = rule_line :: header_line :: rule_line :: rows
      /\ List.length rows = 2
      /\ Forall (fun c => c = 45%N \/ c = 43%N) rule_line
      /\ len rule_line = len longest + 12 * 5
      /\ Forall (fun row => len row = len longest + 12 * 5) rows
      /\ len header_line = Nat.max 4 (len longest) + 12 * 5.
Proof.
  assert (F : Forall (fun f => len f <= 9) (List.map flavor_name flavors)).
  { simpl. constructor; [simpl; lia|]. constructor; [simpl; lia|].
    constructor; [simpl; lia|]. constructor; [simpl; lia|].
    constructor; [simpl; lia|]. constructor. }
  split; [exact F|]. split; [reflexivity|].
  apply (report_many_lines_widths
           [(u "a.lbl", named mixed_results); (u "bb", named mixed_results)]
           (List.map flavor_name flavors) mixed_table_lines F).
  reflexivity.
Defined.

Lemma main_results_shape_witness :
  main (quoting := plain_quoting) (host := listing_host)
       (library := mixed_library) [u "a.lbl"]
       (dialects (library := mixed_library))
  = (Ok [(u "a.lbl", mixed_results)],
     snd (main (quoting := plain_quoting) (host := listing_host)
               (library := mixed_library) [u "a.lbl"]
               (dialects (library := mixed_library))))
  /\ List.map fst [(u "a.lbl", mixed_results)] = [u "a.lbl"]
  /\ Forall (fun fr =>
               List.map fst (snd fr) = flavors
               /\ Forall (fun kr =>
                            snd kr = (Some false, None)
                            \/ snd kr = (Some true, Some true)
                            \/ snd kr = (Some true, Some false))
                         (snd fr))
            [(u "a.lbl", mixed_results)].
Proof.
  split; [reflexivity|].
  apply (main_results_shape (quoting := plain_quoting) (host := listing_host)
           (library := mixed_library) [u "a.lbl"]
           (dialects (library := mixed_library))
           (snd (main (quoting := plain_quoting) (host := listing_host)
                      (library := mixed_library) [u "a.lbl"]
                      (dialects (library := mixed_library))))).
  reflexivity.
Defined.

Lemma main_forgets_earlier_files_witness :
  [u "a.lbl"] <> []
  /\ [u "bb"] <> []
  /\ main (quoting := plain_quoting) (host := listing_host)
          (library := mixed_library) [u "a.lbl"]
          (dialects (library := mixed_library))
     = (Ok [(u "a.lbl", mixed_results)],
        snd (main (quoting := plain_quoting) (host := listing_host)
                  (library := mixed_library) [u "a.lbl"]
                  (dialects (library := mixed_library))))
  /\ fst (main (quoting := plain_quoting) (host := listing_host)
               (library := mixed_library) ([u "a.lbl"] ++ [u "bb"])
               (dialects (library := mixed_library)))
     = match fst (main (quoting := plain_quoting) (host := listing_host)
                       (library := mixed_library) [u "bb"]
                       (dialects (library := mixed_library)))
       with
       | Ok r2 => Ok ([(u "a.lbl", mixed_results)] ++ r2)
       | Raise e => Raise e
       end.
Proof.
  split; [discriminate|]. split; [discriminate|].
  split; [reflexivity|].
  apply (main_forgets_earlier_files (quoting := plain_quoting)
           (host := listing_host) (library := mixed_library)
           [u "a.lbl"] [u "bb"] (dialects (library := mixed_library))
           (snd (main (quoting := plain_quoting) (host := listing_host)
                      (library := mixed_library) [u "a.lbl"]
                      (dialects (library := mixed_library)))));
    [discriminate | discriminate | reflexivity].
Defined.

Lemma main_prints_a_report_witness :
  [u "a.lbl"] <> []
  /\ main (quoting := plain_quoting) (host := listing_host)
          (library := mixed_library) [u "a.lbl"]
          (dialects (library := mixed_library))
     = (Ok [(u "a.lbl", mixed_results)],
        snd (main (quoting := plain_quoting) (host := listing_host)
                  (library := mixed_library) [u "a.lbl"]
                  (dialects (library := mixed_library))))
  /\ exists text,
      main_printed (quoting := plain_quoting) (host := listing_host)
                   (library := mixed_library) [u "a.lbl"]
                   (dialects (library := mixed_library))
      = (Ok text,
         snd (main (quoting := plain_quoting) (host := listing_host)
                   (library := mixed_library) [u "a.lbl"]
                   (dialects (library := mixed_library)))).
Proof.
  split; [discriminate|]. split; [reflexivity|].
  apply (main_prints_a_report (quoting := plain_quoting)
           (host := listing_host) (library := mixed_library)
           [u "a.lbl"] (dialects (library := mixed_library))
           (snd (main (quoting := plain_quoting) (host := listing_host)
                      (library := mixed_library) [u "a.lbl"]
                      (dialects (library := mixed_library))))
           [(u "a.lbl", mixed_results)]);
    [discriminate | reflexivity].
Defined.

Lemma integers_encode_as_decimal_witness :
  (Z.abs (-42) < 10 ^ 4300)%Z
  /\ exists digits : string,
      encode_value (quoting := plain_quoting) (host := listing_host)
                   (VInt (-42)) = Ok (b digits)
      /\ encode_simple_value (quoting := plain_quoting)
                             (host := listing_host) (VInt (-42))
         = Ok (b digits)
      /\ option_map Z.of_int (NilZero.int_of_string digits) = Some (-42)%Z.
Proof.
  split; [reflexivity|].
  apply (integers_encode_as_decimal (quoting := plain_quoting)
           (host := listing_host) (-42)).
  reflexivity.
Defined.

Lemma pvl_flavor_escapes_witness :
  yields_members (host := listing_host)
  /\ pvl_flavor (quoting := plain_quoting) (host := listing_host)
                (library := dated_library) tt PDS3
                (dialects (library := dated_library))
     = (Raise (TypeError (a_date ++ u " is not serializable")),
        snd (pvl_flavor (quoting := plain_quoting) (host := listing_host)
                        (library := dated_library) tt PDS3
                        (dialects (library := dated_library))))
  /\ ((loads (Library := dated_library) tt PDS3
       = Raise (TypeError (a_date ++ u " is not serializable"))
       /\ caught_on_load (TypeError (a_date ++ u " is not serializable"))
          = false)
      \/ not_serializable (host := listing_host)
                          (TypeError (a_date ++ u " is not serializable"))
      \/ (quoting_raises (quoting := plain_quoting)
                         (TypeError (a_date ++ u " is not serializable"))
          /\ caught_on_encode
               (TypeError (a_date ++ u " is not serializable"))
             = false)).
Proof.
  assert (Y : yields_members (host := listing_host))
    by (intros A xs x H; exact H).
  split; [exact Y|]. split; [reflexivity|].
  apply (pvl_flavor_escapes (quoting := plain_quoting) (host := listing_host)
           (library := dated_library) tt PDS3
           (dialects (library := dated_library))
           (snd (pvl_flavor (quoting := plain_quoting) (host := listing_host)
                            (library := dated_library) tt PDS3
                            (dialects (library := dated_library))))
           (TypeError (a_date ++ u " is not serializable")) Y).
  reflexivity.
Defined.

(** * Characters and bytes under [PDSLabelEncoder] *)

Lemma utf8_point_length (c : N) (x : bytes) :
  utf8_point c = Ok x ->
  1 <= List.length x /\ (List.length x = 1 <-> (c < 128)%N).
Proof.
  unfold utf8_point.
  destruct (N.ltb_spec c 128) as [L|L].
  - intro H. inversion H. simpl. split; [lia | split; auto].
  - repeat match goal with
           | |- (if ?t then _ else _) = _ -> _ => destruct t
           end; intro H; inversion H; simpl;
      (split; [lia | split; [discriminate | lia]]).
Qed.

Lemma utf8_length (s : pystr) :
  forall name,
    utf8 s = Ok name ->
    len s <= List.length name
    /\ (List.length name = len s <-> Forall (fun c => (c < 128)%N) s).
Proof.
  induction s as [|c s IH]; intros name H.
  - inversion H. simpl. split; [lia | split; auto].
  - cbn [utf8] in H.
    destruct (utf8_point c) as [x|] eqn:P; [|discriminate].
    destruct (utf8 s) as [xs|] eqn:U; [|discriminate].
    cbn [rbind] in H. rewrite <- (Ok_inj _ _ H).
    destruct (utf8_point_length c x P) as [P1 P2].
    destruct (IH xs eq_refl) as [I1 I2].
    rewrite length_app. unfold len in *. cbn [List.length]. split; [lia|].
    split.
    + intro E. constructor; [apply P2; lia | apply I2; lia].
    + intro F. inversion F; subst.
      apply P2 in H2. apply I2 in H3. lia.
Qed.

Section CharactersAndBytes.

Context {quoting : Quoting} {host : Host}.

(** [PDSLabelEncoder] counts the column in characters and pads bytes.
    For a tree of one entry the column is the number of characters of the
    key, and the line is the UTF-8 key, with no padding, then the
    assignment token: the token starts after as many bytes as the key
    has, which is the column exactly when every character of the key is
    below U+0080, and further to the right otherwise. *)
Theorem pds_column_counts_characters (key : pystr) (value : pyvalue)
  (name text : bytes) (col0 : option nat) (stream : bytes) :
  isinstance_dict value = false ->
  utf8 key = Ok name ->
  encode_value value = Ok text ->
  encode [(key, value)] (Encoder PDSLabelEncoder col0, stream)
  = (Ok tt,
     (Encoder PDSLabelEncoder (Some (len key)),
      stream ++ name ++ assignment ++ text ++ newline ++ b "END"))
  /\ len key <= List.length name
  /\ (List.length name = len key <-> Forall (fun c => (c < 128)%N) key).
Proof.
  intros Hv K V. destruct (utf8_length key name K) as [L A].
  split; [|split; [exact L | exact A]].
  rewrite encode_unfold. cbn [cls].
  assert (D : _detect_assignment_col [(key, value)] 0 = Ok (len key)).
  { unfold _detect_assignment_col. cbn [collect fst snd].
    replace (_key_length key value 0) with (Ok (0 + len key) : result nat)
      by (destruct value; try discriminate; reflexivity).
    reflexivity. }
  rewrite D. unfold PVLEncoder_encode, bind.
  rewrite encode_block_cons. unfold bind.
  rewrite encode_statement_assignment by exact Hv.
  rewrite (assignment_writes key value 0
             (set_col (Encoder PDSLabelEncoder col0) (len key)) stream).
  unfold assignment_line. rewrite K, V. cbn [rbind].
  unfold raw_line. cbn [cls set_col assignment_col done text_of].
  cbn [encode_block ret get_self fst snd write].
  unfold ljust. cbn [indentation_of repeat List.concat app].
  replace (len key - List.length name) with 0 by lia.
  cbn [repeat]. rewrite app_nil_r.
  unfold write. cbn [fst snd set_col cls end_statement].
  repeat rewrite <- app_assoc. reflexivity.
Qed.

(** A set is written between braces, its members separated as those of a
    list are; when the host yields the members of a set each once, in
    whatever order, and every member has a text, the parts between the
    braces are the texts of the members in some order. *)
Theorem set_text_is_a_permutation (members : list pyvalue)
  (parts : list bytes) :
  permutes_members ->
  collect encode_value members = Ok parts ->
  exists parts',
    Permutation parts' parts
    /\ encode_value (VSet members)
       = Ok (b "{" ++ join (b ", ") parts' ++ b "}").
Proof.
  intros Pm C.
  assert (M : List.map encode_value members = List.map Ok parts).
  { apply collect_each in C. induction C as [|v p vs ps Hv _ IH];
      [reflexivity|]. simpl. now rewrite Hv, IH. }
  pose proof (Pm _ (List.map encode_value members)) as Q. rewrite M in Q.
  apply Permutation_map_inv in Q. destruct Q as (parts' & E & Q).
  exists parts'. split; [now apply Permutation_sym|].
  change (encode_value (VSet members))
    with (encode_simple_value (VSet members)).
  rewrite encode_simple_value_set. unfold encode_set.
  rewrite M, E.
  assert (O : forall ps : list bytes, all_ok (List.map Ok ps) = Ok ps).
  { induction ps as [|x ps IH]; [reflexivity|]. simpl. now rewrite IH. }
  rewrite O. reflexivity.
Qed.

End CharactersAndBytes.

Lemma pds_column_counts_characters_witness :
  isinstance_dict (VInt 1) = false
  /\ utf8 [233%N] = Ok [xc3; xa9]
  /\ encode_value (quoting := plain_quoting) (host := listing_host) (VInt 1)
     = Ok (b "1")
  /\ encode (quoting := plain_quoting) (host := listing_host)
            [([233%N], VInt 1)] (Encoder PDSLabelEncoder None, [])
     = (Ok tt,
        (Encoder PDSLabelEncoder (Some (len [233%N])),
         [] ++ [xc3; xa9] ++ assignment ++ b "1" ++ newline ++ b "END"))
  /\ len [233%N] <= List.length [xc3; xa9]
  /\ (List.length [xc3; xa9] = len [233%N]
      <-> Forall (fun c => (c < 128)%N) [233%N]).
Proof.
  split; [reflexivity|]. split; [reflexivity|]. split; [reflexivity|].
  apply (pds_column_counts_characters (quoting := plain_quoting)
           (host := listing_host) [233%N] (VInt 1) [xc3; xa9] (b "1")
           None []); reflexivity.
Defined.

Lemma set_text_is_a_permutation_witness :
  permutes_members (host := reversing_host)
  /\ collect (encode_value (quoting := plain_quoting)
                           (host := reversing_host))
             [VInt 1; VInt 2; VInt 3]
     = Ok [b "1"; b "2"; b "3"]
  /\ exists parts',
      Permutation parts' [b "1"; b "2"; b "3"]
      /\ encode_value (quoting := plain_quoting) (host := reversing_host)
                      (VSet [VInt 1; VInt 2; VInt 3])
         = Ok (b "{" ++ join (b ", ") parts' ++ b "}").
Proof.
  assert (P : permutes_members (host := reversing_host)).
  { intros A xs. apply Permutation_sym. apply Permutation_rev. }
  split; [exact P|]. split; [reflexivity|].
  apply (set_text_is_a_permutation (quoting := plain_quoting)
           (host := reversing_host) [VInt 1; VInt 2; VInt 3]
           [b "1"; b "2"; b "3"] P).
  reflexivity.
Defined.

(** * The lines of [PDSLabelEncoder] and the column *)

Lemma indentation_of_spaces (level : nat) :
  indentation_of level = repeat " "%byte (2 * level).
Proof.
  unfold indentation_of. induction level as [|level IH]; [reflexivity|].
  replace (2 * S level) with (S (S (2 * level))) by lia.
  cbn [repeat List.concat]. rewrite IH. reflexivity.
Qed.

Lemma raw_line_pds (col level : nat) (key value : bytes) :
  raw_line (Encoder PDSLabelEncoder (Some col)) level key value
  = Ok (pds_line col level key value).
Proof.
  unfold raw_line, pds_line. cbn [cls assignment_col].
  rewrite indentation_of_spaces. reflexivity.
Qed.

Lemma assigned_entry (d : nat) (key : pystr) (blk : block) :
  assigned_at d key blk -> entry_at d key blk.
Proof.
  induction 1 as [key value blk Hin _|d key name items blk Hin _ IH
                 |d key name items blk Hin _ IH].
  - exact (entry_here key value blk Hin).
  - exact (entry_in_object d key name items blk Hin IH).
  - exact (entry_in_group d key name items blk Hin IH).
Qed.

Section PdsColumn.

Context {quoting : Quoting} {host : Host}.

(** Under [PDSLabelEncoder] with a column on the instance, a block that
    is written to its end is written as [padded] lines of that column. *)
Lemma padded_block_writes (col : nat) (blk : block) :
  forall level,
    exists r out,
      writes (encode_block blk level) (Encoder PDSLabelEncoder (Some col))
             r out
      /\ (r = Ok tt -> padded col level blk out).
Proof.
  set (self := Encoder PDSLabelEncoder (Some col)).
  induction blk as [|key value rest Hv IHrest|key items rest IHitems IHrest
                   |key items rest IHitems IHrest] using block_nested_ind;
    intros level.
  - exists (Ok tt), []. split; [apply writes_ret|]. intros _. constructor.
  - rewrite encode_block_cons, encode_statement_assignment by exact Hv.
    destruct (IHrest level) as (r2 & o2 & W2 & N2).
    pose proof (assignment_writes key value level self) as W1.
    destruct (assignment_line self level key value) as [line|e] eqn:E;
      simpl in W1.
    + exists r2, (line ++ o2). split.
      * eapply writes_bind_ok; eauto.
      * intro Hr.
        destruct (assignment_line_ok _ _ _ _ _ E) as (n & t & K & V & L).
        unfold self in L. rewrite raw_line_pds in L.
        rewrite <- (Ok_inj _ _ L).
        apply padded_assignment; auto.
    + exists (Raise e), []. split; [|discriminate].
      now apply writes_bind_raise.
  - rewrite encode_block_cons, encode_statement_group. unfold encode_group.
    destruct (IHitems (level + 1)) as (ri & oi & Wi & Ni).
    destruct (IHrest level) as (r2 & o2 & W2 & N2).
    destruct (wrapped_writes items level self key _ _ _ _ _ _
                             (group_begin_writes key level self)
                             (group_end_writes key level self) Wi)
      as (r' & o' & W' & N').
    destruct r' as [[]|e].
    + destruct (N' eq_refl) as (n & f & l & Hk & Hf & Hl & Hr & Ho).
      unfold close_line in Hl. unfold self in Hf, Hl. cbn [cls] in Hf, Hl.
      rewrite raw_line_pds in Hf, Hl.
      apply Ok_inj in Hf. apply Ok_inj in Hl. subst.
      exists r2, ((pds_line col level (b "GROUP") n ++ oi
                   ++ pds_line col level (b "END") n) ++ o2). split.
      * eapply writes_bind_ok; eauto.
      * intro Hr2. repeat rewrite <- app_assoc.
        apply padded_group; auto.
    + exists (Raise e), o'. split; [|discriminate].
      now apply writes_bind_raise.
  - rewrite encode_block_cons, encode_statement_object. unfold encode_object.
    destruct (IHitems (level + 1)) as (ri & oi & Wi & Ni).
    destruct (IHrest level) as (r2 & o2 & W2 & N2).
    destruct (wrapped_writes items level self key _ _ _ _ _ _
                             (object_begin_writes key level self)
                             (object_end_writes key level self) Wi)
      as (r' & o' & W' & N').
    destruct r' as [[]|e].
    + destruct (N' eq_refl) as (n & f & l & Hk & Hf & Hl & Hr & Ho).
      unfold close_line in Hl. unfold self in Hf, Hl. cbn [cls] in Hf, Hl.
      rewrite raw_line_pds in Hf, Hl.
      apply Ok_inj in Hf. apply Ok_inj in Hl. subst.
      exists r2, ((pds_line col level (b "OBJECT") n ++ oi
                   ++ pds_line col level (b "END") n) ++ o2). split.
      * eapply writes_bind_ok; eauto.
      * intro Hr2. repeat rewrite <- app_assoc.
        apply padded_object; auto.
    + exists (Raise e), o'. split; [|discriminate].
      now apply writes_bind_raise.
Qed.

(** C2 (as the code has it): under [PDSLabelEncoder] the column is the
    greatest, over all the keys of the tree, of depth times two plus the
    number of characters of the key, nested mappings and groups being
    entered one level deeper (the computation raises [ValueError], before
    anything is written, when some mapping of the tree is empty).  [encode] computes
    it before it writes anything and runs the whole traversal with that
    one value on the instance, which the traversal never changes.  What a
    run of [encode] that succeeds has appended to the stream is, line
    after line, the [padded] lines of the tree for that column, then
    [END]: in every line the key slot, which is the indentation and the
    UTF-8 key of the entry, or the indentation and one of the tokens
    [GROUP], [OBJECT] and [END], is filled with spaces up to the column
    and followed by the assignment token.  The assignment token so starts
    at the column or, where the key slot has more bytes than the column,
    right after the key slot; the key slot of an entry whose key has only
    characters below U+0080 never has more bytes than the column.  For
    the mapping [A = 1], [LONGKEY = 2] both lines have the sign [=] at
    offset [len("LONGKEY") + 1]. *)
Theorem pds_lines_padded_to_column (module : block) (col0 : option nat)
  (stream : bytes) :
  let self := Encoder PDSLabelEncoder col0 in
  let column := list_max (candidates 0 module) in
  _detect_assignment_col module 0
  = (if populated_block module then Ok column else Raise ValueError)
  /\ encode module (self, stream)
     = (if populated_block module
        then PVLEncoder_encode module (set_col self column, stream)
        else (Raise ValueError, (self, stream)))
  /\ (forall blk level s,
         fst (snd (encode_block blk level (set_col self column, s)))
         = set_col self column)
  /\ (forall key value level s,
         encode_raw_assignment key value level (set_col self column, s)
         = (Ok tt,
            (set_col self column, s ++ pds_line column level key value)))
  /\ (forall self' stream',
         encode module (self, stream) = (Ok tt, (self', stream')) ->
         populated_block module = true
         /\ self' = Encoder PDSLabelEncoder (Some column)
         /\ exists body,
             stream' = stream ++ body ++ b "END"
             /\ padded column 0 module body)
  /\ (forall level key value,
         exists slot,
           pds_line column level key value
           = slot ++ b " = " ++ value ++ [x0a]
           /\ slot = repeat " "%byte (2 * level) ++ key
                     ++ repeat " "%byte
                          (column - (2 * level + List.length key))
           /\ List.length slot
              = Nat.max (2 * level + List.length key) column)
  /\ (forall d key name,
         assigned_at d key module ->
         utf8 key = Ok name ->
         Forall (fun c => (c < 128)%N) key ->
         2 * d + List.length name <= column)
  /\ encode [(u "A", VInt 1); (u "LONGKEY", VInt 2)] (self, stream)
     = (Ok tt,
        (set_col self (len (u "LONGKEY")),
         stream ++ b "A       = 1" ++ newline
                ++ b "LONGKEY = 2" ++ newline
                ++ b "END"))
  /\ nth_error (b "A       = 1") (len (u "LONGKEY") + 1) = Some "="%byte
  /\ nth_error (b "LONGKEY = 2") (len (u "LONGKEY") + 1) = Some "="%byte.
Proof.
  intros self column.
  assert (D : _detect_assignment_col module 0
              = if populated_block module then Ok column else Raise ValueError)
    by apply (detect_candidates 0 module).
  assert (E : encode module (self, stream)
              = if populated_block module
                then PVLEncoder_encode module (set_col self column, stream)
                else (Raise ValueError, (self, stream))).
  { rewrite encode_unfold. simpl cls. rewrite D.
    destruct (populated_block module); reflexivity. }
  split; [exact D|]. split; [exact E|].
  split; [|split; [|split; [|split; [|split; [|split]]]]].
  - intros blk level s. apply encode_block_keeps_instance.
  - intros key value level s.
    rewrite (raw_assignment_writes key value level (set_col self column) s).
    change (set_col self column)
      with (Encoder PDSLabelEncoder (Some column)).
    rewrite raw_line_pds. reflexivity.
  - intros self' stream' H. rewrite E in H.
    destruct (populated_block module); [|discriminate H].
    split; [reflexivity|].
    destruct (padded_block_writes column module 0) as (r & out & W & N).
    pose proof (PVLEncoder_encode_writes module _ r out W stream) as R.
    change (set_col self column)
      with (Encoder PDSLabelEncoder (Some column)) in H.
    rewrite R in H. injection H as Hr Hs Ht. subst r.
    split; [symmetry; exact Hs|].
    exists out. split; [symmetry; exact Ht | apply N; reflexivity].
  - intros level key value.
    exists (ljust (repeat " "%byte (2 * level) ++ key) column).
    split; [reflexivity|]. split.
    + unfold ljust. rewrite length_app, repeat_length, <- app_assoc.
      reflexivity.
    + rewrite ljust_length, length_app, repeat_length. reflexivity.
  - intros d key name Ha Hk Hc.
    destruct (utf8_length key name Hk) as [_ L].
    apply L in Hc. rewrite Hc.
    pose proof (entry_at_candidate d key module (assigned_entry _ _ _ Ha) 0)
      as Hin.
    apply in_list_max in Hin. fold column in Hin.
    change (List.length indentation) with 2 in *. unfold len in *.
    rewrite Nat.add_0_l in Hin. lia.
  - revert stream E. intros stream _. revert stream. apply runs_at_empty.
    + apply encode_runs.
    + reflexivity.
  - split; reflexivity.
Qed.

End PdsColumn.

(** C2, the claim as the specification words it, fails: under
    [PDSLabelEncoder] the label of an entry [A] and a group [X] of one
    entry [B] has the column 3, the length of the indented key [B];
    the line of [A] has the assignment token at the column, and the line
    that opens the group, whose token [GROUP] has five bytes, has it two
    bytes further to the right: the assignment tokens of the label do not
    start at one column. *)
Lemma pds_opening_line_off_column :
  _detect_assignment_col label_with_group 0 = Ok 3
  /\ sample_encode label_with_group (Encoder PDSLabelEncoder None, [])
     = (Ok tt,
        (Encoder PDSLabelEncoder (Some 3),
         b "A   = 1" ++ newline ++ b "GROUP = X" ++ newline
           ++ b "  B = 2" ++ newline ++ b "END = X" ++ newline ++ b "END"))
  /\ firstn 3 (skipn 3 (b "A   = 1")) = assignment
  /\ firstn 3 (skipn 3 (b "GROUP = X")) <> assignment
  /\ firstn 3 (skipn 5 (b "GROUP = X")) = assignment
  /\ nth_error (b "A   = 1") (3 + 1) = Some "="%byte
  /\ nth_error (b "GROUP = X") (3 + 1) <> Some "="%byte.
Proof.
  split; [reflexivity|]. split; [reflexivity|]. split; [reflexivity|].
  split; [discriminate|]. split; [reflexivity|]. split; [reflexivity|].
  discriminate.
Qed.

Lemma pds_lines_padded_to_column_witness :
  sample_encode label_with_group (Encoder PDSLabelEncoder None, [])
  = (Ok tt,
     (Encoder PDSLabelEncoder (Some 3),
      b "A   = 1" ++ newline ++ b "GROUP = X" ++ newline
        ++ b "  B = 2" ++ newline ++ b "END = X" ++ newline ++ b "END"))
  /\ (populated_block label_with_group = true
      /\ Encoder PDSLabelEncoder (Some 3)
         = Encoder PDSLabelEncoder
                   (Some (list_max (candidates 0 label_with_group)))
      /\ exists body,
          b "A   = 1" ++ newline ++ b "GROUP = X" ++ newline
            ++ b "  B = 2" ++ newline ++ b "END = X" ++ newline ++ b "END"
          = [] ++ body ++ b "END"
          /\ padded (quoting := plain_quoting) (host := listing_host)
                    (list_max (candidates 0 label_with_group)) 0
                    label_with_group body)
  /\ assigned_at 1 (u "B") label_with_group
  /\ utf8 (u "B") = Ok (b "B")
  /\ Forall (fun c => (c < 128)%N) (u "B")
  /\ 2 * 1 + List.length (b "B")
     <= list_max (candidates 0 label_with_group).
Proof.
  pose proof (pds_lines_padded_to_column (quoting := plain_quoting)
                (host := listing_host) label_with_group None []) as H.
  cbv zeta in H. destruct H as (_ & _ & _ & _ & R & _ & A & _).
  assert (E : assigned_at 1 (u "B") label_with_group).
  { apply (assigned_in_group 0 (u "B") (u "X") [(u "B", VInt 2)]).
    - right. left. reflexivity.
    - apply (assigned_here (u "B") (VInt 2)); [left|]; reflexivity. }
  assert (F : Forall (fun c => (c < 128)%N) (u "B")).
  { constructor; [reflexivity | constructor]. }
  split; [reflexivity|].
  split; [apply R; reflexivity|].
  split; [exact E|]. split; [reflexivity|]. split; [exact F|].
  apply (A 1 (u "B") (b "B") E); [reflexivity | exact F].
Defined.
